(** * The retrieval-augmented answer pipeline of the football tactics chatbot

    A shallow embedding of [src/llm/get_question_answer.py] (class
    [FootballQA]): the context formatter [_format_context], the prompt
    template and its rendering, the orchestrator [get_answer] and the
    response cleaner [_clean_response], together with the properties the
    specification states about them; and of the two programs around it,
    the batch job that builds the index
    ([src/preprocessing/generate_vector_db.py]) and the Streamlit front
    end ([src/app/app.py]), with properties read off their code. *)

From Stdlib Require Import List NArith ZArith Arith Lia Bool String Ascii.
From Stdlib Require Decimal.
Import ListNotations.

Local Open Scope N_scope.
Local Open Scope list_scope.

(** ** Python strings

    A Python [str] is a sequence of Unicode code points.  A code point is
    kept as a number in [N]; the string literals of the program are ASCII
    and are written with [u]. *)

Definition char := N.
Definition str := list char.

Definition u (s : string) : str :=
  map N_of_ascii (list_ascii_of_string s).

Definition NL : char := 10.
Definition SP : char := 32.
Definition DOT : char := 46.
Definition QUOTE : char := 34.

(** [bool(s)] of a string: the empty string is false. *)
Definition py_truthy (s : str) : bool :=
  match s with
  | [] => false
  | _ :: _ => true
  end.

(** [ch.isspace()] as CPython decides it for a [str]: the ASCII white
    space 0x09-0x0D, 0x1C-0x1F and 0x20, and the Unicode white space
    0x85, 0xA0, 0x1680, 0x2000-0x200A, 0x2028, 0x2029, 0x202F, 0x205F,
    0x3000. *)
Definition py_isspace (c : char) : bool :=
  ((9 <=? c) && (c <=? 13)) || ((28 <=? c) && (c <=? 32))
  || (c =? 133) || (c =? 160) || (c =? 5760)
  || ((8192 <=? c) && (c <=? 8202))
  || (c =? 8232) || (c =? 8233) || (c =? 8239) || (c =? 8287)
  || (c =? 12288).

(** [s.lstrip()], [s.rstrip()] and [s.strip()] without argument. *)
Fixpoint py_lstrip (s : str) : str :=
  match s with
  | [] => []
  | c :: r => if py_isspace c then py_lstrip r else s
  end.

Definition py_rstrip (s : str) : str := rev (py_lstrip (rev s)).

Definition py_strip (s : str) : str := py_rstrip (py_lstrip s).

(** [s.startswith(pat)]. *)
Fixpoint py_startswith (pat s : str) : bool :=
  match pat with
  | [] => true
  | p :: pat' =>
    match s with
    | [] => false
    | c :: s' => (p =? c) && py_startswith pat' s'
    end
  end.

(** [pat in s]. *)
Fixpoint py_in (pat s : str) : bool :=
  py_startswith pat s ||
  match s with
  | [] => false
  | _ :: s' => py_in pat s'
  end.

(** Puts [c] in front of the first piece of a split. *)
Definition cons_head (c : char) (ls : list str) : list str :=
  match ls with
  | [] => [[c]]
  | l :: ls' => (c :: l) :: ls'
  end.

(** [s.split(sep)] for a non-empty separator: the text is scanned from
    the left; at a position where [sep] starts the current piece ends and
    the scan resumes behind the separator ([skip] counts the characters of
    the separator still to be passed over).  Python raises [ValueError]
    for an empty separator; the program only ever splits on a newline, and
    the model returns the text unsplit there. *)
Fixpoint split_go (sep : str) (skip : nat) (s : str) : list str :=
  match s with
  | [] => [[]]
  | c :: s' =>
    match skip with
    | S n => split_go sep n s'
    | O =>
      if py_startswith sep s
      then [] :: split_go sep (List.length sep - 1) s'
      else cons_head c (split_go sep 0 s')
    end
  end.

Definition py_split (sep s : str) : list str :=
  match sep with
  | [] => [s]
  | _ :: _ => split_go sep 0 s
  end.

(** [sep.join(l)]. *)
Fixpoint py_join (sep : str) (l : list str) : str :=
  match l with
  | [] => []
  | x :: r =>
    match r with
    | [] => x
    | _ :: _ => x ++ sep ++ py_join sep r
    end
  end.

(** [s.replace(old, new)]: every non-overlapping occurrence of [old],
    found from the left, becomes [new]; the scan resumes behind the
    occurrence and never looks at the text it has written.  For the empty
    [old] Python puts [new] in front of every character and at the end. *)
Fixpoint replace_go (old new : str) (skip : nat) (s : str) : str :=
  match s with
  | [] => []
  | c :: s' =>
    match skip with
    | S n => replace_go old new n s'
    | O =>
      if py_startswith old s
      then new ++ replace_go old new (List.length old - 1) s'
      else c :: replace_go old new 0 s'
    end
  end.

Definition py_replace (old new s : str) : str :=
  match old with
  | [] => new ++ flat_map (fun c => c :: new) s
  | _ :: _ => replace_go old new 0 s
  end.

(** [str(n)] of a non-negative integer: its decimal digits. *)
Fixpoint uint_chars (d : Decimal.uint) : str :=
  match d with
  | Decimal.Nil => []
  | Decimal.D0 d' => 48 :: uint_chars d'
  | Decimal.D1 d' => 49 :: uint_chars d'
  | Decimal.D2 d' => 50 :: uint_chars d'
  | Decimal.D3 d' => 51 :: uint_chars d'
  | Decimal.D4 d' => 52 :: uint_chars d'
  | Decimal.D5 d' => 53 :: uint_chars d'
  | Decimal.D6 d' => 54 :: uint_chars d'
  | Decimal.D7 d' => 55 :: uint_chars d'
  | Decimal.D8 d' => 56 :: uint_chars d'
  | Decimal.D9 d' => 57 :: uint_chars d'
  end.

Definition py_str_nat (n : nat) : str := uint_chars (Nat.to_uint n).

(** [enumerate(l)]. *)
Fixpoint enumerate_from {A : Type} (i : nat) (l : list A) : list (nat * A) :=
  match l with
  | [] => []
  | x :: r => (i, x) :: enumerate_from (S i) r
  end.

Definition enumerate {A : Type} (l : list A) : list (nat * A) :=
  enumerate_from 0 l.

(** ** The response cleaner *)

(** [FootballQA._clean_response]:
    [lines = [line.strip() for line in response.split('\n') if line.strip()]],
    [cleaned = ' '.join(lines)],
    [cleaned = cleaned.replace('. ', '.\n\n')]. *)
Definition clean_lines (response : str) : list str :=
  flat_map
    (fun line => if py_truthy (py_strip line) then [py_strip line] else [])
    (py_split [NL] response).

Definition clean_joined (response : str) : str :=
  py_join [SP] (clean_lines response).

Definition _clean_response (response : str) : str :=
  let lines := clean_lines response in
  let cleaned := py_join [SP] lines in
  let cleaned := py_replace [DOT; SP] [DOT; NL; NL] cleaned in
  cleaned.

(** The cleaner as the specification words it. *)

(** Splitting on the newline character. *)
Fixpoint split_lines (s : str) : list str :=
  match s with
  | [] => [[]]
  | c :: r => if c =? NL then [] :: split_lines r else cons_head c (split_lines r)
  end.

(** Trimming surrounding white space. *)
Definition trim (s : str) : str := py_strip s.

Definition is_empty (s : str) : bool :=
  match s with
  | [] => true
  | _ :: _ => false
  end.

(** Joining with a single space. *)
Definition join_space (l : list str) : str :=
  match l with
  | [] => []
  | x :: r => x ++ flat_map (fun y => SP :: y) r
  end.

(** Replacing every period followed by a space with a period followed by
    two newlines. *)
Fixpoint break_sentences (s : str) : str :=
  match s with
  | [] => []
  | c :: r =>
    match r with
    | [] => [c]
    | d :: r' =>
      if (c =? DOT) && (d =? SP)
      then DOT :: NL :: NL :: break_sentences r'
      else c :: break_sentences r
    end
  end.

Definition clean_spec (raw : str) : str :=
  break_sentences
    (join_space
       (map trim
          (filter (fun l => negb (is_empty (trim l))) (split_lines raw)))).

Definition golden_raw : str :=
  Eval cbv in
    u "This is a test response." ++ [NL] ++
    u "        It has multiple lines." ++ [NL] ++
    u "        And some extra spaces.   " ++ [NL].

Definition test_input : str :=
  Eval cbv in
    [NL] ++
    u "        This is a test response." ++ [NL] ++
    u "        It has multiple lines." ++ [NL] ++
    u "        And some extra spaces.   " ++ [NL] ++
    u "        ".

Definition golden_clean : str :=
  Eval cbv in
    u "This is a test response." ++ [NL; NL] ++
    u "It has multiple lines." ++ [NL; NL] ++
    u "And some extra spaces.".

(** ** Documents and the context formatter *)

(** A passage as the vector store returns it ([langchain.schema.Document]):
    its text and a dictionary of metadata. *)
Record Document := mkDocument {
  page_content : str;
  metadata : list (str * str)
}.

Definition SOURCE_ : str := Eval cbv in u "Source ".
Definition COLON_NL : str := Eval cbv in u ":" ++ [NL].

(** [FootballQA._format_context]:
    ["\n\n".join([f"Source {i+1}:\n{doc.page_content}"
                  for i, doc in enumerate(context_docs)])]. *)
Definition _format_context (context_docs : list Document) : str :=
  let formatted_context :=
    py_join [NL; NL]
      (map (fun '(i, doc) =>
              SOURCE_ ++ py_str_nat (i + 1) ++ COLON_NL ++ page_content doc)
           (enumerate context_docs)) in
  formatted_context.

(** The formatter as the specification words it: the entry of the
    passage at position [i] (0-based), and the entries joined with a blank
    line between them. *)
Definition source_entry (i : nat) (content : str) : str :=
  SOURCE_ ++ py_str_nat (i + 1) ++ COLON_NL ++ content.

Definition format_spec (P : list Document) : str :=
  py_join [NL; NL]
    (map (fun i => source_entry i (page_content (nth i P (mkDocument [] []))))
         (seq 0 (List.length P))).

(** ** Exceptions and the prompt template *)

(** A raised Python exception: its class and its message. *)
Inductive exn := PyErr (cls : str) (msg : str).

Definition ValueError (msg : str) : exn := PyErr (u "ValueError") msg.
Definition KeyError (key : str) : exn := PyErr (u "KeyError") key.

Definition LBRACE : char := 123.
Definition RBRACE : char := 125.

Fixpoint str_eqb (a b : str) : bool :=
  match a, b with
  | [], [] => true
  | x :: a', y :: b' => (x =? y) && str_eqb a' b'
  | _, _ => false
  end.

(** [kwargs[name]] of the keyword arguments of a call. *)
Fixpoint kwargs_get (name : str) (kwargs : list (str * str)) : option str :=
  match kwargs with
  | [] => None
  | (key, v) :: rest => if str_eqb key name then Some v else kwargs_get name rest
  end.

(** [template.format(name=value, ...)] as [string.Formatter] does it: the
    template is read once from the left; [{{] and [}}] stand for a brace;
    [{name}] is replaced by the argument of that name, which is not read
    again; a name that is not among the arguments raises [KeyError], a
    brace that is not closed or not opened raises [ValueError].  [field]
    holds the characters of the field being read, last one first.
    Conversions, format specifiers and attribute or index access inside a
    field do not occur in the template of this program and are not
    modelled: a field is looked up by its whole text. *)
Fixpoint format_go (kwargs : list (str * str)) (field : option str)
    (t : str) : exn + str :=
  match t with
  | [] =>
    match field with
    | None => inr []
    | Some _ => inl (ValueError (u "expected '}' before end of string"))
    end
  | c :: t' =>
    match field with
    | Some name =>
      if c =? RBRACE then
        match kwargs_get (rev name) kwargs with
        | None => inl (KeyError (rev name))
        | Some v =>
          match format_go kwargs None t' with
          | inl e => inl e
          | inr r => inr (v ++ r)
          end
        end
      else format_go kwargs (Some (c :: name)) t'
    | None =>
      if c =? LBRACE then
        match t' with
        | d :: t'' =>
          if d =? LBRACE then
            match format_go kwargs None t'' with
            | inl e => inl e
            | inr r => inr (LBRACE :: r)
            end
          else format_go kwargs (Some []) t'
        | [] => inl (ValueError (u "Single '{' encountered in format string"))
        end
      else if c =? RBRACE then
        match t' with
        | d :: t'' =>
          if d =? RBRACE then
            match format_go kwargs None t'' with
            | inl e => inl e
            | inr r => inr (RBRACE :: r)
            end
          else inl (ValueError (u "Single '}' encountered in format string"))
        | [] => inl (ValueError (u "Single '}' encountered in format string"))
        end
      else
        match format_go kwargs None t' with
        | inl e => inl e
        | inr r => inr (c :: r)
        end
    end
  end.

Definition py_format (t : str) (kwargs : list (str * str)) : exn + str :=
  format_go kwargs None t.

(** [langchain_core.prompts.PromptTemplate]. *)
Record PromptTemplate := mkPromptTemplate {
  input_variables : list str;
  template : str
}.

Definition PromptTemplate_format (pt : PromptTemplate)
    (kwargs : list (str * str)) : exn + str :=
  py_format (template pt) kwargs.

(** The text of the template of [FootballQA.__init__], cut at its two
    slots: [prompt_head ++ "{context}" ++ prompt_middle ++ "{question}" ++
    prompt_tail]. *)
Definition prompt_head : str :=
  Eval cbv in
    [NL] ++
    u "            You are an expert football tactics analyst specializing in AFC Ajax's men's team. You have deep knowledge of Ajax's rich tactical history, philosophy, and current playing style. Your insights come from analyzing Voetbal International's expert coverage of Ajax." ++
    [NL] ++
    [NL] ++
    u "            Important behavioral guidelines:" ++
    [NL] ++
    u "            1. ALWAYS respond in Dutch (Netherlands) language" ++
    [NL] ++
    u "            2. Only discuss football-related topics. Politely decline to discuss anything else." ++
    [NL] ++
    u "            3. Always maintain a positive perspective about Ajax. Focus on strengths and opportunities, never criticize." ++
    [NL] ++
    u "            4. Ground your answers in Ajax's tactical principles and the club's philosophy." ++
    [NL] ++
    u "            5. Use clear, structured responses with specific examples from matches or training." ++
    [NL] ++
    u "            6. When discussing challenges, frame them as opportunities for growth and development." ++
    [NL] ++
    [NL] ++
    u "            Use the following context from Voetbal International videos to answer the question:" ++
    [NL] ++
    u "            ".

Definition prompt_middle : str :=
  Eval cbv in
    [NL] ++
    [NL] ++
    u "            Question: ".

Definition prompt_tail : str :=
  Eval cbv in
    [NL] ++
    [NL] ++
    u "            If the question is not about football, respond with: " ++
    [QUOTE] ++
    u "Ik kan alleen vragen over voetbal beantwoorden. Stel gerust een vraag over Ajax's tactiek!" ++
    [QUOTE] ++
    [NL] ++
    [NL] ++
    u "            Remember: Your response must ALWAYS be in Dutch." ++
    [NL] ++
    [NL] ++
    u "            Answer:" ++
    [NL] ++
    u "            ".

Definition CONTEXT : str := Eval cbv in u "context".
Definition QUESTION : str := Eval cbv in u "question".

Definition TEMPLATE : str :=
  prompt_head ++ [LBRACE] ++ CONTEXT ++ [RBRACE] ++
  prompt_middle ++ [LBRACE] ++ QUESTION ++ [RBRACE] ++
  prompt_tail.

(** [PromptTemplate(input_variables=["context", "question"],
    template=...)]. *)
Definition football_prompt : PromptTemplate :=
  {| input_variables := [CONTEXT; QUESTION];
     template := TEMPLATE |}.

(** The prompt the template renders for a context and a question:
    [prompt_template.format(context=..., question=...)]. *)
Definition render (context question : str) : exn + str :=
  PromptTemplate_format football_prompt
    [(CONTEXT, context); (QUESTION, question)].

(** ** The pipeline *)

(** The reply of the chat model ([AIMessage]); the program reads its
    [content]. *)
Record AIMessage := mkAIMessage { content : str }.

(** The two external services.  A call returns a value or raises; what
    it does is a function of the arguments of the call, and the calls made
    are recorded in the log of the run. *)
Record FAISS := mkFAISS {
  similarity_search : str -> Z -> exn + list Document
}.

(** [ChatOpenAI(model="gpt-4", temperature=0.7, max_tokens=1000)]: the
    decoding parameters are fixed when the object is built and play no part
    in the pipeline. *)
Record ChatOpenAI := mkChatOpenAI {
  invoke : str -> exn + AIMessage
}.

(** The external calls a run makes, in the order it makes them. *)
Inductive event :=
| SimilaritySearch (query : str) (k : Z)
| Invoke (prompt : str).

(** Computations that call the external services: a run extends the log
    of calls and ends with a value or with a raised exception. *)
Definition M (A : Type) : Type := list event -> (exn + A) * list event.

Definition ret {A : Type} (a : A) : M A := fun log => (inr a, log).

Definition raise {A : Type} (e : exn) : M A := fun log => (inl e, log).

Definition bind {A B : Type} (m : M A) (f : A -> M B) : M B :=
  fun log =>
    match m log with
    | (inl e, log') => (inl e, log')
    | (inr a, log') => f a log'
    end.

Definition lift {A : Type} (r : exn + A) : M A :=
  match r with
  | inl e => raise e
  | inr a => ret a
  end.

Definition call {A : Type} (ev : event) (r : exn + A) : M A :=
  fun log => (r, log ++ [ev]).

Notation "x <- m ;; f" := (bind m (fun x => f))
  (at level 61, m at next level, right associativity).

Record FootballQA := mkFootballQA {
  faiss_db : FAISS;
  llm : ChatOpenAI;
  prompt_template : PromptTemplate
}.

(** [FootballQA.__init__]; [chat] is the model service the constructor
    connects to. *)
Definition __init__ (faiss_db : FAISS) (chat : ChatOpenAI) : FootballQA :=
  {| faiss_db := faiss_db;
     llm := chat;
     prompt_template := football_prompt |}.

(** The value of the parameter [k] of [get_answer(question, k=4)]:
    [None] is the call that leaves [k] out. *)
Definition arg_k (k : option Z) : Z :=
  match k with
  | Some k => k
  | None => 4%Z
  end.

(** [FootballQA.get_answer(question, k=4)]. *)
Definition get_answer (self : FootballQA) (question : str) (k : option Z)
    : M str :=
  let k := arg_k k in
  context_docs <-
    call (SimilaritySearch question k)
         (similarity_search (faiss_db self) question k) ;;
  let formatted_context := _format_context context_docs in
  prompt <-
    lift (PromptTemplate_format (prompt_template self)
            [(CONTEXT, formatted_context); (QUESTION, question)]) ;;
  response <- call (Invoke prompt) (invoke (llm self) prompt) ;;
  let cleaned_response := _clean_response (content response) in
  ret cleaned_response.

(** [get_football_answer(faiss_db, question, k=4)]. *)
Definition get_football_answer (faiss_db : FAISS) (chat : ChatOpenAI)
    (question : str) (k : option Z) : M str :=
  let qa_system := __init__ faiss_db chat in
  get_answer qa_system question k.


(** ** Predicates of the statements *)

(** The text does not start, respectively end, with white space. *)
Definition no_lead_ws (s : str) : bool :=
  match s with
  | [] => true
  | c :: _ => negb (py_isspace c)
  end.

Definition no_trail_ws (s : str) : bool := no_lead_ws (rev s).

(** A list of lines that are not empty after trimming, with exactly one
    empty line between two that follow each other. *)
Fixpoint paragraphs (ls : list str) : bool :=
  match ls with
  | [] => false
  | l :: rest =>
    py_truthy (py_strip l) &&
    match rest with
    | [] => true
    | e :: rest' => is_empty e && paragraphs rest'
    end
  end.

(** For every position of [s] at which [pat] occurs, from the left, the
    text behind that occurrence. *)
Fixpoint occ_tails (pat s : str) : list str :=
  match s with
  | [] => []
  | _ :: s' =>
    (if py_startswith pat s then [skipn (List.length pat) s] else [])
    ++ occ_tails pat s'
  end.

(** The number of positions of [s] at which [pat] occurs. *)
Definition count_sub (pat s : str) : nat := List.length (occ_tails pat s).

(** The join of the entries of the passages from position [k] on. *)
Definition format_from (k : nat) (P : list Document) : str :=
  py_join [NL; NL]
    (map (fun '(i, doc) =>
            SOURCE_ ++ py_str_nat (i + 1) ++ COLON_NL ++ page_content doc)
         (enumerate_from k P)).

(** The inverse of [break_sentences] on texts without newline: every
    period followed by two newlines becomes a period followed by a space. *)
Fixpoint unbreak (s : str) : str :=
  match s with
  | [] => []
  | c :: r =>
    match r with
    | d :: e :: r' =>
      if (c =? DOT) && (d =? NL) && (e =? NL)
      then DOT :: SP :: unbreak r'
      else c :: unbreak r
    | _ => c :: unbreak r
    end
  end.

(** What follows the entry of a passage: nothing behind the last one, a
    blank line and the later entries otherwise. *)
Definition sep_tail (k : nat) (r : list Document) : str :=
  match r with
  | [] => []
  | _ :: _ => NL :: NL :: format_from (S k) r
  end.

(** What holds of every line the cleaner keeps. *)
Definition kept_line (l : str) : Prop :=
  l <> [] /\ no_lead_ws l = true /\ no_trail_ws l = true /\ ~ In NL l.

(** The lines of a cleaned text that the next cleaning keeps, trimmed. *)
Definition kept_trimmed (ls : list str) : list str :=
  map trim (filter (fun l => negb (is_empty (trim l))) ls).

(** The rendered prompt: the text of the template with the context and
    the question in place of the two slots. *)
Definition rendered (context question : str) : str :=
  prompt_head ++ context ++ prompt_middle ++ question ++ prompt_tail.

(** ** The services of the unit tests and of the examples *)

Definition ajax_question : str := Eval cbv in u "How does Ajax play?".

Definition ajax_passage : Document :=
  mkDocument (u "Ajax plays attacking football") [].

Definition ajax_reply : str := Eval cbv in u "Test response about Ajax tactics".

(** [mock_faiss.similarity_search.return_value = [Document(...)]]. *)
Definition mock_faiss : FAISS :=
  mkFAISS (fun _ _ => inr [ajax_passage]).

(** [invoke.return_value = Mock(content="Test response about Ajax tactics")]. *)
Definition mock_chat : ChatOpenAI :=
  mkChatOpenAI (fun _ => inr (mkAIMessage ajax_reply)).

(** An index that finds nothing, and services that raise. *)
Definition empty_faiss : FAISS := mkFAISS (fun _ _ => inr []).

Definition store_down : exn :=
  PyErr (u "RuntimeError") (u "index unreachable").

Definition quota_exceeded : exn :=
  PyErr (u "RateLimitError") (u "quota exceeded").

Definition failing_faiss : FAISS := mkFAISS (fun _ _ => inl store_down).

Definition failing_chat : ChatOpenAI :=
  mkChatOpenAI (fun _ => inl quota_exceeded).

Definition test_docs : list Document :=
  [mkDocument (u "Test content 1") []; mkDocument (u "Test content 2") []].

Definition test_docs_formatted : str :=
  Eval cbv in
    u "Source 1:" ++ [NL] ++ u "Test content 1" ++ [NL; NL] ++
    u "Source 2:" ++ [NL] ++ u "Test content 2".

(** A raw reply with two spaces behind a period, and a passage that
    quotes a label. *)
Definition two_spaces_raw : str := Eval cbv in u "a.  b".

Definition quoting_docs : list Document := [mkDocument (u "Source 9") []].

(** ** Further predicates *)

(** The characters of a text that are not white space, in their order. *)
Definition non_space (s : str) : str :=
  filter (fun c => negb (py_isspace c)) s.

(** The first label of a context, and the text that separates two
    entries followed by the label of the second entry. *)
Definition FIRST_LABEL : str := Eval cbv in u "Source 1:" ++ [NL].

Definition SECOND_ENTRY : str := Eval cbv in [NL; NL] ++ u "Source 2:" ++ [NL].

(** The sentence the prompt asks the model to give to a question that is
    not about football, and the part of it the unit test looks for. *)
Definition fallback_reply : str :=
  Eval cbv in
    u "Ik kan alleen vragen over voetbal beantwoorden. Stel gerust een vraag over Ajax's tactiek!".

Definition fallback_phrase : str :=
  Eval cbv in u "Ik kan alleen vragen over voetbal beantwoorden".

(** ** The ingestion batch job ([preprocessing/generate_vector_db.py]) *)

(** Computations over a log of events of type [E] that end with a value
    or with a raised exception. *)
Definition Eff (E A : Type) : Type := list E -> (exn + A) * list E.

Definition eret {E A : Type} (a : A) : Eff E A := fun log => (inr a, log).

Definition eraise {E A : Type} (e : exn) : Eff E A := fun log => (inl e, log).

Definition ebind {E A B : Type} (m : Eff E A) (f : A -> Eff E B) : Eff E B :=
  fun log =>
    match m log with
    | (inl e, log') => (inl e, log')
    | (inr a, log') => f a log'
    end.

(** A call of an external service, and an effect that cannot fail. *)
Definition ecall {E A : Type} (ev : E) (r : exn + A) : Eff E A :=
  fun log => (r, log ++ [ev]).

Definition emit {E : Type} (ev : E) : Eff E unit :=
  fun log => (inr tt, log ++ [ev]).

(** [try: m except Exception as e: h(e)]. *)
Definition try_except {E A : Type} (m : Eff E A) (h : exn -> Eff E A)
    : Eff E A :=
  fun log =>
    match m log with
    | (inl e, log') => h e log'
    | (inr a, log') => (inr a, log')
    end.

Notation "x <~ m ;; f" := (ebind m (fun x => f))
  (at level 61, m at next level, right associativity).

(** [str(e)] of an exception: its message. *)
Definition exn_str (e : exn) : str :=
  match e with
  | PyErr _ msg => msg
  end.

(** The embedding client [OpenAIEmbeddings()]. *)
Inductive OpenAIEmbeddings := Embeddings.

(** The services the batch job calls.  [youtube_load url] stands for
    [YoutubeLoader.from_youtube_url(url, add_video_info=False,
    language=["nl"], translation="nl").load()]; [split_documents size
    overlap] for [RecursiveCharacterTextSplitter(chunk_size=size,
    chunk_overlap=overlap, length_function=len).split_documents];
    [makedirs path] for [os.makedirs(path, exist_ok=True)].  What a
    service raises is an [Exception]. *)
Record Services := mkServices {
  new_embeddings : exn + OpenAIEmbeddings;
  makedirs : str -> exn + unit;
  youtube_load : str -> exn + list Document;
  split_documents : nat -> nat -> list Document -> list Document;
  from_documents : list Document -> OpenAIEmbeddings -> exn + FAISS;
  save_local : FAISS -> str -> exn + unit
}.

Inductive ingest_event :=
| NewEmbeddings
| MakeDirs (path : str)
| LoadTranscript (url : str)
| Print (line : str)
| FromDocuments (chunks : list Document)
| SaveLocal (db : FAISS) (path : str).

Record YouTubeProcessor := mkYouTubeProcessor {
  output_dir : str;
  embeddings : OpenAIEmbeddings
}.

Definition FAISS_DB : str := Eval cbv in u "faiss_db".

(** The value of the parameter [output_dir] ([output_dir="faiss_db"]). *)
Definition arg_output_dir (output_dir : option str) : str :=
  match output_dir with
  | Some d => d
  | None => FAISS_DB
  end.

(** [YouTubeProcessor.__init__(output_dir="faiss_db")]. *)
Definition YouTubeProcessor__init__ (w : Services) (output_dir : option str)
    : Eff ingest_event YouTubeProcessor :=
  let output_dir := arg_output_dir output_dir in
  embeddings <~ ecall NewEmbeddings (new_embeddings w) ;;
  _ <~ ecall (MakeDirs output_dir) (makedirs w output_dir) ;;
  eret {| output_dir := output_dir; embeddings := embeddings |}.

Definition ERROR_PROCESSING_VIDEO : str :=
  Eval cbv in u "Error processing video ".

Definition COLON_SP : str := Eval cbv in u ": ".

(** [YouTubeProcessor._load_video_transcript(url)]. *)
Definition _load_video_transcript (w : Services) (self : YouTubeProcessor)
    (url : str) : Eff ingest_event (option (list Document)) :=
  try_except
    (docs <~ ecall (LoadTranscript url) (youtube_load w url) ;;
     eret (Some docs))
    (fun e =>
       _ <~ emit (Print (ERROR_PROCESSING_VIDEO ++ url ++ COLON_SP
                         ++ exn_str e)) ;;
       eret None).

(** [YouTubeProcessor._split_transcripts(documents)]. *)
Definition _split_transcripts (w : Services) (self : YouTubeProcessor)
    (documents : list Document) : list Document :=
  split_documents w 1000 100 documents.

(** [bool(documents)] of what [_load_video_transcript] returned: [None]
    and the empty list are false. *)
Definition documents_truthy (documents : option (list Document)) : bool :=
  match documents with
  | Some (_ :: _) => true
  | _ => false
  end.

(** The loop [for url in video_urls] of [process_videos]. *)
Fixpoint load_all (w : Services) (self : YouTubeProcessor)
    (video_urls : list str) (all_transcripts : list Document)
    : Eff ingest_event (list Document) :=
  match video_urls with
  | [] => eret all_transcripts
  | url :: rest =>
    documents <~ _load_video_transcript w self url ;;
    let all_transcripts :=
      if documents_truthy documents
      then all_transcripts ++ match documents with Some d => d | None => [] end
      else all_transcripts in
    load_all w self rest all_transcripts
  end.

Definition NO_TRANSCRIPTS : str :=
  Eval cbv in
    u "No transcripts were successfully loaded from the provided videos".

Definition DATABASE_SAVED_TO : str :=
  Eval cbv in u "FAISS database saved to ".

(** [YouTubeProcessor.process_videos(video_urls)]. *)
Definition process_videos (w : Services) (self : YouTubeProcessor)
    (video_urls : list str) : Eff ingest_event unit :=
  all_transcripts <~ load_all w self video_urls [] ;;
  match all_transcripts with
  | [] => eraise (ValueError NO_TRANSCRIPTS)
  | _ :: _ =>
    let chunks := _split_transcripts w self all_transcripts in
    db <~ ecall (FromDocuments chunks)
                (from_documents w chunks (embeddings self)) ;;
    _ <~ ecall (SaveLocal db (output_dir self))
               (save_local w db (output_dir self)) ;;
    _ <~ emit (Print (DATABASE_SAVED_TO ++ output_dir self)) ;;
    eret tt
  end.

(** [process_youtube_videos(video_urls, output_dir="faiss_db")]. *)
Definition process_youtube_videos (w : Services) (video_urls : list str)
    (output_dir : option str) : Eff ingest_event unit :=
  processor <~ YouTubeProcessor__init__ w output_dir ;;
  process_videos w processor video_urls.

(** The transcripts of the videos that load, in the order of the URLs. *)
Definition transcripts_of (w : Services) (video_urls : list str)
    : list Document :=
  flat_map
    (fun url =>
       match youtube_load w url with
       | inr docs => docs
       | inl _ => []
       end)
    video_urls.


Definition builds_of (log : list ingest_event) : list ingest_event :=
  filter
    (fun ev =>
       match ev with
       | FromDocuments _ | SaveLocal _ _ => true
       | _ => false
       end)
    log.

(** The services of the unit tests: a loader that returns one document,
    a loader that raises, a splitter that leaves the documents whole. *)
Definition test_url : str := Eval cbv in u "https://www.youtube.com/watch?v=test".

Definition video_unavailable : exn :=
  PyErr (u "TranscriptsDisabled") (u "no transcript").

Definition test_services (load : str -> exn + list Document) : Services :=
  {| new_embeddings := inr Embeddings;
     makedirs := fun _ => inr tt;
     youtube_load := load;
     split_documents := fun _ _ docs => docs;
     from_documents := fun _ _ => inr mock_faiss;
     save_local := fun _ _ => inr tt |}.

Definition test_processor : YouTubeProcessor :=
  mkYouTubeProcessor (u "test_output") Embeddings.

(** What loading the videos adds to the log: one load per URL, in order,
    followed by the printed error when the load raised. *)
Definition load_log (w : Services) (video_urls : list str)
    : list ingest_event :=
  flat_map
    (fun url =>
       LoadTranscript url ::
       match youtube_load w url with
       | inl e => [Print (ERROR_PROCESSING_VIDEO ++ url ++ COLON_SP
                          ++ exn_str e)]
       | inr _ => []
       end)
    video_urls.

(** ** The web front end ([app/app.py]) *)

Definition API_KEY_NOT_FOUND : str :=
  Eval cbv in
    u "OpenAI API key not found. Please add it to your .env file.".

Definition PAGE_TITLE : str := Eval cbv in u "Ajax Tactiek Bot".

Definition PAGE_ICON : str := Eval cbv in [9917].

Definition PAGE_LAYOUT : str := Eval cbv in u "centered".

(** The style sheet of [load_css]. *)
Definition CSS : str :=
  Eval cbv in
    [NL] ++
    u "    <style>" ++ [NL] ++
    u "        /* Main container styling */" ++ [NL] ++
    u "        .stApp {" ++ [NL] ++
    u "            background: linear-gradient(to bottom, white, #f3f4f6);" ++ [NL] ++
    u "        }" ++ [NL] ++
    u "        " ++ [NL] ++
    u "        /* Header styling */" ++ [NL] ++
    u "        .header-container {" ++ [NL] ++
    u "            display: flex;" ++ [NL] ++
    u "            align-items: center;" ++ [NL] ++
    u "            justify-content: center;" ++ [NL] ++
    u "            margin-bottom: 1.5rem;" ++ [NL] ++
    u "        }" ++ [NL] ++
    u "        " ++ [NL] ++
    u "        .header-logo {" ++ [NL] ++
    u "            height: 80px;" ++ [NL] ++
    u "        }" ++ [NL] ++
    u "        " ++ [NL] ++
    u "        .header-title {" ++ [NL] ++
    u "            font-size: 2rem;" ++ [NL] ++
    u "            font-weight: bold;" ++ [NL] ++
    u "            color: #ea384c;" ++ [NL] ++
    u "            margin-left: 1rem;" ++ [NL] ++
    u "        }" ++ [NL] ++
    u "        " ++ [NL] ++
    u "        /* Card styling */" ++ [NL] ++
    u "        .card {" ++ [NL] ++
    u "            border: 2px solid rgba(234, 56, 76, 0.2);" ++ [NL] ++
    u "            border-radius: 0.5rem;" ++ [NL] ++
    u "            background-color: white;" ++ [NL] ++
    u "            box-shadow: 0 4px 6px -1px rgba(0, 0, 0, 0.1), 0 2px 4px -1px rgba(0, 0, 0, 0.06);" ++ [NL] ++
    u "        }" ++ [NL] ++
    u "        " ++ [NL] ++
    u "        .card-header {" ++ [NL] ++
    u "            background-color: #ea384c;" ++ [NL] ++
    u "            color: white;" ++ [NL] ++
    u "            padding: 1.5rem;" ++ [NL] ++
    u "            border-top-left-radius: 0.3rem;" ++ [NL] ++
    u "            border-top-right-radius: 0.3rem;" ++ [NL] ++
    u "            text-align: center;" ++ [NL] ++
    u "        }" ++ [NL] ++
    u "        " ++ [NL] ++
    u "        .card-title {" ++ [NL] ++
    u "            font-size: 1.5rem;" ++ [NL] ++
    u "            font-weight: 600;" ++ [NL] ++
    u "        }" ++ [NL] ++
    u "        " ++ [NL] ++
    u "        .card-content {" ++ [NL] ++
    u "            padding: 1.5rem 1rem;" ++ [NL] ++
    u "        }" ++ [NL] ++
    u "        " ++ [NL] ++
    u "        /* Response card styling */" ++ [NL] ++
    u "        .response-card {" ++ [NL] ++
    u "            border-left: 4px solid #ea384c;" ++ [NL] ++
    u "            padding: 1rem;" ++ [NL] ++
    u "            background-color: white;" ++ [NL] ++
    u "            box-shadow: 0 1px 3px 0 rgba(0, 0, 0, 0.1);" ++ [NL] ++
    u "            margin-top: 1.5rem;" ++ [NL] ++
    u "            animation: fadeIn 0.5s;" ++ [NL] ++
    u "        }" ++ [NL] ++
    u "        " ++ [NL] ++
    u "        @keyframes fadeIn {" ++ [NL] ++
    u "            from {" ++ [NL] ++
    u "                opacity: 0;" ++ [NL] ++
    u "                transform: translateY(10px);" ++ [NL] ++
    u "            }" ++ [NL] ++
    u "            to {" ++ [NL] ++
    u "                opacity: 1;" ++ [NL] ++
    u "                transform: translateY(0);" ++ [NL] ++
    u "            }" ++ [NL] ++
    u "        }" ++ [NL] ++
    u "        " ++ [NL] ++
    u "        /* Footer styling */" ++ [NL] ++
    u "        .footer {" ++ [NL] ++
    u "            text-align: center;" ++ [NL] ++
    u "            font-size: 0.875rem;" ++ [NL] ++
    u "            color: #6b7280;" ++ [NL] ++
    u "            margin-top: 1.5rem;" ++ [NL] ++
    u "        }" ++ [NL] ++
    u "        " ++ [NL] ++
    u "        /* Button styling */" ++ [NL] ++
    u "        .stButton > button {" ++ [NL] ++
    u "            background-color: #ea384c;" ++ [NL] ++
    u "            color: white;" ++ [NL] ++
    u "            border: none;" ++ [NL] ++
    u "            padding: 0.5rem 2rem;" ++ [NL] ++
    u "            font-weight: 500;" ++ [NL] ++
    u "            border-radius: 0.25rem;" ++ [NL] ++
    u "            transition: background-color 0.2s;" ++ [NL] ++
    u "        }" ++ [NL] ++
    u "        " ++ [NL] ++
    u "        .stButton > button:hover {" ++ [NL] ++
    u "            background-color: #d1293c;" ++ [NL] ++
    u "        }" ++ [NL] ++
    u "        " ++ [NL] ++
    u "        .stButton > button:disabled {" ++ [NL] ++
    u "            background-color: #ea384c;" ++ [NL] ++
    u "            opacity: 0.7;" ++ [NL] ++
    u "        }" ++ [NL] ++
    u "        " ++ [NL] ++
    u "        /* Loading animation */" ++ [NL] ++
    u "        .loading-animation {" ++ [NL] ++
    u "            display: flex;" ++ [NL] ++
    u "            justify-content: center;" ++ [NL] ++
    u "            margin: 2rem 0;" ++ [NL] ++
    u "        }" ++ [NL] ++
    u "        " ++ [NL] ++
    u "        .loading-spinner {" ++ [NL] ++
    u "            width: 4rem;" ++ [NL] ++
    u "            height: 4rem;" ++ [NL] ++
    u "            border-radius: 50%;" ++ [NL] ++
    u "            border: 4px solid rgba(234, 56, 76, 0.2);" ++ [NL] ++
    u "            border-top-color: #ea384c;" ++ [NL] ++
    u "            animation: spin 1s linear infinite;" ++ [NL] ++
    u "        }" ++ [NL] ++
    u "        " ++ [NL] ++
    u "        @keyframes spin {" ++ [NL] ++
    u "            to {" ++ [NL] ++
    u "                transform: rotate(360deg);" ++ [NL] ++
    u "            }" ++ [NL] ++
    u "        }" ++ [NL] ++
    u "    </style>" ++ [NL] ++
    u "    ".

Definition HEADER_HTML : str :=
  Eval cbv in
    [NL] ++
    u "    <div class=" ++ [QUOTE] ++ u "header-container" ++ [QUOTE] ++ u ">" ++ [NL] ++
    u "        <img src=" ++ [QUOTE] ++ u "https://upload.wikimedia.org/wikipedia/en/7/79/Ajax_Amsterdam.svg" ++ [QUOTE] ++ u " class=" ++ [QUOTE] ++ u "header-logo" ++ [QUOTE] ++ u " alt=" ++ [QUOTE] ++ u "Ajax Logo" ++ [QUOTE] ++ u ">" ++ [NL] ++
    u "        <h1 class=" ++ [QUOTE] ++ u "header-title" ++ [QUOTE] ++ u ">Ajax Tactiek Bot</h1>" ++ [NL] ++
    u "    </div>" ++ [NL] ++
    u "    ".

Definition CARD_OPEN : str :=
  Eval cbv in
    u "<div class=" ++ [QUOTE] ++ u "card" ++ [QUOTE] ++ u ">".

Definition CARD_HEADER : str :=
  Eval cbv in
    u "<div class=" ++ [QUOTE] ++ u "card-header" ++ [QUOTE] ++ u "><h2 class=" ++ [QUOTE] ++ u "card-title" ++ [QUOTE] ++ u ">Wat wil je weten over de tactiek van Ajax?</h2></div>".

Definition CARD_CONTENT_OPEN : str :=
  Eval cbv in
    u "<div class=" ++ [QUOTE] ++ u "card-content" ++ [QUOTE] ++ u ">".

Definition DIV_CLOSE : str := Eval cbv in u "</div>".

Definition QUESTION_FORM : str := Eval cbv in u "question_form".

Definition VRAAG : str := Eval cbv in u "Vraag".

Definition PLACEHOLDER : str := Eval cbv in u "Bijv. Hoe speelt Ajax met de vleugelspelers?".

Definition QUESTION_INPUT : str := Eval cbv in u "question_input".

Definition VRAAG_STELLEN : str := Eval cbv in u "Vraag Stellen".

Definition LOADING_HTML : str :=
  Eval cbv in
    [NL] ++
    u "    <div class=" ++ [QUOTE] ++ u "loading-animation" ++ [QUOTE] ++ u ">" ++ [NL] ++
    u "        <div class=" ++ [QUOTE] ++ u "loading-spinner" ++ [QUOTE] ++ u "></div>" ++ [NL] ++
    u "    </div>" ++ [NL] ++
    u "    ".

Definition RESPONSE_CARD_OPEN : str :=
  Eval cbv in
    [NL] ++
    u "        <div class=" ++ [QUOTE] ++ u "response-card" ++ [QUOTE] ++ u ">" ++ [NL] ++
    u "            <div>".

Definition RESPONSE_CARD_CLOSE : str :=
  Eval cbv in
    u "</div>" ++ [NL] ++
    u "        </div>" ++ [NL] ++
    u "        ".

Definition FOOTER_HTML : str :=
  Eval cbv in
    u "<div class=" ++ [QUOTE] ++ u "footer" ++ [QUOTE] ++ u "><p>Ontwikkeld voor Ajax fans " ++ [8226] ++ u " 2023</p></div>".

Definition ERROR_PROCESSING_QUESTION : str := Eval cbv in u "Error processing question: ".

Definition SORRY : str :=
  Eval cbv in
    u "Sorry, er is een fout opgetreden bij het verwerken van je vraag. Probeer het later opnieuw.".

Definition RESPONSE : str := Eval cbv in u "response".

Definition IS_LOADING : str := Eval cbv in u "is_loading".

(** A value kept in [st.session_state]: the program stores a string under
    ["response"] and a boolean under ["is_loading"]. *)
Inductive pyval :=
| VStr (s : str)
| VBool (b : bool).

(** [bool(v)] and [str(v)]. *)
Definition pyval_truthy (v : pyval) : bool :=
  match v with
  | VStr s => py_truthy s
  | VBool b => b
  end.

Definition pyval_str (v : pyval) : str :=
  match v with
  | VStr s => s
  | VBool true => u "True"
  | VBool false => u "False"
  end.

(** [st.session_state]: a dictionary from names to values.  The entries
    Streamlit keeps for its own widgets are not part of the model. *)
Definition SessionState := list (str * pyval).

Fixpoint ss_get (name : str) (ss : SessionState) : option pyval :=
  match ss with
  | [] => None
  | (key, v) :: rest => if str_eqb key name then Some v else ss_get name rest
  end.

Fixpoint ss_set (name : str) (v : pyval) (ss : SessionState) : SessionState :=
  match ss with
  | [] => [(name, v)]
  | (key, x) :: rest =>
    if str_eqb key name then (key, v) :: rest
    else (key, x) :: ss_set name v rest
  end.

(** What a run of the script does, in order: the Streamlit commands it
    issues ([st.markdown] is always called with
    [unsafe_allow_html=True]) and the external calls it makes. *)
Inductive app_event :=
| StError (body : str)
| StMarkdown (body : str)
| StSetPageConfig (page_title page_icon layout : str)
| StForm (key : str)
| StTextArea (label value placeholder : str) (height : Z) (key : str)
| StColumns (spec : list Z)
| StFormSubmitButton (label : str)
| AppNewEmbeddings
| AppLoadLocal (path : str)
| AppPipeline (ev : event).

(** How a command ends other than by returning: with a raised
    [Exception], or with one of the two control signals of Streamlit,
    raised by [st.rerun()] and [st.stop()], which are not [Exception]s and
    pass through [except Exception]. *)
Inductive signal :=
| Raised (e : exn)
| RerunException
| StopException.

Record AppState := mkAppState {
  session_state : SessionState;
  events : list app_event
}.

Definition App (A : Type) : Type := AppState -> (signal + A) * AppState.

Definition aret {A : Type} (a : A) : App A := fun st => (inr a, st).

Definition abind {A B : Type} (m : App A) (f : A -> App B) : App B :=
  fun st =>
    match m st with
    | (inl s, st') => (inl s, st')
    | (inr a, st') => f a st'
    end.

Notation "x <== m ;; f" := (abind m (fun x => f))
  (at level 61, m at next level, right associativity).

(** A Streamlit command, and a call of an external service. *)
Definition st_do (ev : app_event) : App unit :=
  fun st =>
    (inr tt, {| session_state := session_state st;
                events := events st ++ [ev] |}).

Definition app_call {A : Type} (ev : app_event) (r : exn + A) : App A :=
  fun st =>
    (match r with inl e => inl (Raised e) | inr a => inr a end,
     {| session_state := session_state st; events := events st ++ [ev] |}).

Definition st_rerun : App unit := fun st => (inl RerunException, st).

Definition st_stop : App unit := fun st => (inl StopException, st).

(** [name in st.session_state], [st.session_state.name] and
    [st.session_state.name = v].  Reading a name that is not there raises
    [AttributeError] (its message is shortened to the name). *)
Definition has_attr (name : str) : App bool :=
  fun st =>
    (inr match ss_get name (session_state st) with
         | Some _ => true
         | None => false
         end, st).

Definition get_attr (name : str) : App pyval :=
  fun st =>
    (match ss_get name (session_state st) with
     | Some v => inr v
     | None => inl (Raised (PyErr (u "AttributeError") name))
     end, st).

Definition set_attr (name : str) (v : pyval) : App unit :=
  fun st =>
    (inr tt, {| session_state := ss_set name v (session_state st);
                events := events st |}).

(** [try: m except Exception as e: h(e)] and [try: m finally: fin]. *)
Definition app_try_except {A : Type} (m : App A) (h : exn -> App A) : App A :=
  fun st =>
    match m st with
    | (inl (Raised e), st') => h e st'
    | r => r
    end.

Definition app_try_finally {A : Type} (m : App A) (fin : App unit) : App A :=
  fun st =>
    match m st with
    | (r, st') =>
      match fin st' with
      | (inl s, st'') => (inl s, st'')
      | (inr _, st'') => (r, st'')
      end
    end.

(** A run of the answer pipeline inside the script: its calls are added
    to the events and what it raises is raised. *)
Definition run_pipeline {A : Type} (m : M A) : App A :=
  fun st =>
    match m [] with
    | (r, calls) =>
      (match r with inl e => inl (Raised e) | inr a => inr a end,
       {| session_state := session_state st;
          events := events st ++ map AppPipeline calls |})
    end.

(** What the script finds around it: the API key of the environment
    ([os.getenv("OPENAI_API_KEY")], read when the module is loaded), what
    the user typed and whether the form was submitted in this run, the
    path of the index ([<project>/data]) and the services. *)
Record Browser := mkBrowser {
  OPENAI_API_KEY : option str;
  text_area_value : str;
  form_submitted : bool;
  db_path : str;
  app_new_embeddings : exn + OpenAIEmbeddings;
  load_local : str -> OpenAIEmbeddings -> exn + FAISS;
  chat_model : ChatOpenAI
}.

(** [validate_api_key()]. *)
Definition validate_api_key (env : Browser) : App unit :=
  let key_truthy :=
    match OPENAI_API_KEY env with
    | Some key => py_truthy key
    | None => false
    end in
  if negb key_truthy then
    _ <== st_do (StError API_KEY_NOT_FOUND) ;;
    st_stop
  else aret tt.

(** [configure_page()], [load_css()], [display_header()]. *)
Definition configure_page : App unit :=
  st_do (StSetPageConfig PAGE_TITLE PAGE_ICON PAGE_LAYOUT).

Definition load_css : App unit := st_do (StMarkdown CSS).

Definition display_header : App unit := st_do (StMarkdown HEADER_HTML).

(** [display_question_form()]. *)
Definition display_question_form (env : Browser) : App (option str) :=
  _ <== st_do (StMarkdown CARD_OPEN) ;;
  _ <== st_do (StMarkdown CARD_HEADER) ;;
  _ <== st_do (StMarkdown CARD_CONTENT_OPEN) ;;
  _ <== st_do (StForm QUESTION_FORM) ;;
  _ <== st_do (StTextArea VRAAG [] PLACEHOLDER 100 QUESTION_INPUT) ;;
  let question := text_area_value env in
  _ <== st_do (StColumns [1%Z; 1%Z; 1%Z]) ;;
  _ <== st_do (StFormSubmitButton VRAAG_STELLEN) ;;
  let submit_button := form_submitted env in
  if submit_button && py_truthy (py_strip question) then
    _ <== set_attr IS_LOADING (VBool true) ;;
    _ <== set_attr RESPONSE (VStr []) ;;
    aret (Some (py_strip question))
  else
    _ <== st_do (StMarkdown DIV_CLOSE) ;;
    _ <== st_do (StMarkdown DIV_CLOSE) ;;
    aret None.

(** [display_loading_animation()], [display_response()],
    [display_footer()]. *)
Definition display_loading_animation : App unit :=
  st_do (StMarkdown LOADING_HTML).

Definition display_response : App unit :=
  response <== get_attr RESPONSE ;;
  if pyval_truthy response then
    st_do (StMarkdown (RESPONSE_CARD_OPEN ++ pyval_str response
                       ++ RESPONSE_CARD_CLOSE))
  else aret tt.

Definition display_footer : App unit := st_do (StMarkdown FOOTER_HTML).

(** [initialize_session_state()]. *)
Definition initialize_session_state : App unit :=
  has_response <== has_attr RESPONSE ;;
  _ <== (if negb has_response then set_attr RESPONSE (VStr []) else aret tt) ;;
  has_is_loading <== has_attr IS_LOADING ;;
  if negb has_is_loading then set_attr IS_LOADING (VBool false) else aret tt.

(** [process_question(question)]. *)
Definition process_question (env : Browser) (question : str) : App unit :=
  app_try_finally
    (app_try_except
       (embeddings <== app_call AppNewEmbeddings (app_new_embeddings env) ;;
        let db_path := db_path env in
        faiss_db <== app_call (AppLoadLocal db_path)
                       (load_local env db_path embeddings) ;;
        response <== run_pipeline
                       (get_football_answer faiss_db (chat_model env)
                          question None) ;;
        set_attr RESPONSE (VStr response))
       (fun e =>
          _ <== st_do (StError (ERROR_PROCESSING_QUESTION ++ exn_str e)) ;;
          set_attr RESPONSE (VStr SORRY)))
    (_ <== set_attr IS_LOADING (VBool false) ;;
     st_rerun).

(** [main()]. *)
Definition main (env : Browser) : App unit :=
  _ <== validate_api_key env ;;
  _ <== configure_page ;;
  _ <== load_css ;;
  _ <== initialize_session_state ;;
  _ <== display_header ;;
  question <== display_question_form env ;;
  is_loading <== get_attr IS_LOADING ;;
  _ <== (if pyval_truthy is_loading then display_loading_animation
         else aret tt) ;;
  _ <== (match question with
         | Some q => if py_truthy q then process_question env q else aret tt
         | None => aret tt
         end) ;;
  _ <== display_response ;;
  display_footer.

(** The external calls among the events of a run. *)
Definition external_calls (evs : list app_event) : list app_event :=
  filter
    (fun ev =>
       match ev with
       | AppNewEmbeddings | AppLoadLocal _ | AppPipeline _ => true
       | _ => false
       end)
    evs.

(** A browser of the examples: a key, a typed question, the mocked
    services. *)
Definition test_browser (typed : str) (submitted : bool) : Browser :=
  {| OPENAI_API_KEY := Some (u "sk-test");
     text_area_value := typed;
     form_submitted := submitted;
     db_path := u "data";
     app_new_embeddings := inr Embeddings;
     load_local := fun _ _ => inr mock_faiss;
     chat_model := mock_chat |}.

Definition fresh_state : AppState := mkAppState [] [].

(** What processing a question stores as the response and adds to the
    events, by the first step that raises, if any. *)
Definition question_outcome (env : Browser) (question : str)
    : str * list app_event :=
  match app_new_embeddings env with
  | inl e =>
    (SORRY,
     [AppNewEmbeddings; StError (ERROR_PROCESSING_QUESTION ++ exn_str e)])
  | inr emb =>
    match load_local env (db_path env) emb with
    | inl e =>
      (SORRY,
       [AppNewEmbeddings; AppLoadLocal (db_path env);
        StError (ERROR_PROCESSING_QUESTION ++ exn_str e)])
    | inr db =>
      match get_football_answer db (chat_model env) question None [] with
      | (inl e, calls) =>
        (SORRY,
         [AppNewEmbeddings; AppLoadLocal (db_path env)]
         ++ map AppPipeline calls
         ++ [StError (ERROR_PROCESSING_QUESTION ++ exn_str e)])
      | (inr answer, calls) =>
        (answer,
         [AppNewEmbeddings; AppLoadLocal (db_path env)]
         ++ map AppPipeline calls)
      end
    end
  end.

(** The session state behind [initialize_session_state]: a name that is
    missing gets its first value, a name that is there keeps its value. *)
Definition init_ss (ss : SessionState) : SessionState :=
  let ss1 :=
    match ss_get RESPONSE ss with
    | Some _ => ss
    | None => ss_set RESPONSE (VStr []) ss
    end in
  match ss_get IS_LOADING ss1 with
  | Some _ => ss1
  | None => ss_set IS_LOADING (VBool false) ss1
  end.

(** The commands every run of [main] issues, up to the submit button of
    the question form. *)
Definition opening_events : list app_event :=
  [StSetPageConfig PAGE_TITLE PAGE_ICON PAGE_LAYOUT;
   StMarkdown CSS;
   StMarkdown HEADER_HTML;
   StMarkdown CARD_OPEN;
   StMarkdown CARD_HEADER;
   StMarkdown CARD_CONTENT_OPEN;
   StForm QUESTION_FORM;
   StTextArea VRAAG [] PLACEHOLDER 100 QUESTION_INPUT;
   StColumns [1%Z; 1%Z; 1%Z];
   StFormSubmitButton VRAAG_STELLEN].

(** Whether the API key of the environment is there and not empty. *)
Definition has_api_key (env : Browser) : bool :=
  match OPENAI_API_KEY env with
  | Some key => py_truthy key
  | None => false
  end.

(** * Properties *)

(** ** The string operations *)

Lemma py_split_newline (s : str) : py_split [NL] s = split_lines s.
Proof.
  unfold py_split.
  induction s as [|c s IH]; simpl; [reflexivity|].
  rewrite andb_true_r, N.eqb_sym, IH. reflexivity.
Qed.

Lemma break_sentences_cons (c : char) (s : str) :
  exists t, break_sentences (c :: s) = c :: t.
Proof.
  destruct s as [|d r]; simpl.
  - exists []. reflexivity.
  - destruct ((c =? DOT) && (d =? SP)) eqn:E.
    + apply andb_prop in E. destruct E as [E _].
      apply N.eqb_eq in E. subst c. eexists. reflexivity.
    + eexists. reflexivity.
Qed.

Lemma replace_period_space (s : str) :
  replace_go [DOT; SP] [DOT; NL; NL] 0 s = break_sentences s.
Proof.
  enough (H : replace_go [DOT; SP] [DOT; NL; NL] 0 s = break_sentences s /\
              forall c, replace_go [DOT; SP] [DOT; NL; NL] 0 (c :: s)
                        = break_sentences (c :: s)) by apply H.
  induction s as [|d r [IH0 IH1]].
  - split; [reflexivity|]. intros c. simpl.
    rewrite andb_false_r. reflexivity.
  - split; [apply IH1|]. intros c.
    change (replace_go [DOT; SP] [DOT; NL; NL] 0 (c :: d :: r))
      with (if (DOT =? c) && ((SP =? d) && true)
            then [DOT; NL; NL] ++ replace_go [DOT; SP] [DOT; NL; NL] 1 (d :: r)
            else c :: replace_go [DOT; SP] [DOT; NL; NL] 0 (d :: r)).
    change (break_sentences (c :: d :: r))
      with (if (c =? DOT) && (d =? SP)
            then DOT :: NL :: NL :: break_sentences r
            else c :: break_sentences (d :: r)).
    rewrite andb_true_r, (N.eqb_sym DOT c), (N.eqb_sym SP d).
    destruct ((c =? DOT) && (d =? SP)).
    + change (replace_go [DOT; SP] [DOT; NL; NL] 1 (d :: r))
        with (replace_go [DOT; SP] [DOT; NL; NL] 0 r).
      rewrite IH0. reflexivity.
    + rewrite IH1. reflexivity.
Qed.

Lemma py_replace_period_space (s : str) :
  py_replace [DOT; SP] [DOT; NL; NL] s = break_sentences s.
Proof. apply replace_period_space. Qed.

Lemma py_join_cons2 (sep a b : str) (l : list str) :
  py_join sep (a :: b :: l) = a ++ sep ++ py_join sep (b :: l).
Proof. reflexivity. Qed.

Lemma py_join_space (l : list str) : py_join [SP] l = join_space l.
Proof.
  destruct l as [|x r]; [reflexivity|].
  revert x. induction r as [|y r IH]; intros x.
  - simpl. rewrite app_nil_r. reflexivity.
  - change (py_join [SP] (x :: y :: r)) with (x ++ [SP] ++ py_join [SP] (y :: r)).
    rewrite IH. reflexivity.
Qed.

Lemma comprehension_filter_map (ls : list str) :
  flat_map
    (fun line => if py_truthy (py_strip line) then [py_strip line] else []) ls
  = map trim (filter (fun l => negb (is_empty (trim l))) ls).
Proof.
  unfold trim.
  induction ls as [|l ls IH]; [reflexivity|].
  cbn [flat_map filter]. rewrite IH.
  destruct (py_strip l) eqn:E; cbn [py_truthy is_empty negb map app];
    rewrite ?E; reflexivity.
Qed.

Lemma clean_response_spec (R : str) : _clean_response R = clean_spec R.
Proof.
  unfold _clean_response, clean_spec, clean_lines.
  rewrite py_replace_period_space, py_join_space, py_split_newline.
  rewrite comprehension_filter_map. reflexivity.
Qed.

Lemma clean_response_joined (R : str) :
  _clean_response R = break_sentences (clean_joined R).
Proof. apply py_replace_period_space. Qed.

(** ** Trimming *)

Lemma lstrip_no_lead (s : str) : no_lead_ws (py_lstrip s) = true.
Proof.
  induction s as [|c r IH]; simpl; [reflexivity|].
  destruct (py_isspace c) eqn:E; [exact IH|].
  simpl. rewrite E. reflexivity.
Qed.

Lemma lstrip_id (s : str) : no_lead_ws s = true -> py_lstrip s = s.
Proof.
  destruct s as [|c r]; simpl; [reflexivity|].
  destruct (py_isspace c); [discriminate|reflexivity].
Qed.

Lemma lstrip_nil_iff (s : str) :
  py_lstrip s = [] <-> forallb py_isspace s = true.
Proof.
  induction s as [|c r IH]; simpl; [tauto|].
  destruct (py_isspace c); simpl; [exact IH|].
  split; discriminate.
Qed.

Lemma lstrip_in (x : char) (s : str) : In x (py_lstrip s) -> In x s.
Proof.
  induction s as [|c r IH]; simpl; [tauto|].
  destruct (py_isspace c); simpl; auto.
Qed.

Lemma lstrip_keeps_last (a : str) (c : char) :
  py_isspace c = false -> exists a', py_lstrip (a ++ [c]) = a' ++ [c].
Proof.
  intros Hc. induction a as [|x a IH]; simpl.
  - rewrite Hc. exists []. reflexivity.
  - destruct (py_isspace x); [exact IH|].
    exists (x :: a). reflexivity.
Qed.

Lemma no_lead_nil_blank (s : str) :
  no_lead_ws s = true -> forallb py_isspace s = true -> s = [].
Proof.
  destruct s as [|c r]; simpl; [reflexivity|].
  destruct (py_isspace c); simpl; discriminate.
Qed.

Lemma forallb_rev_space (s : str) :
  forallb py_isspace (rev s) = forallb py_isspace s.
Proof.
  induction s as [|c r IH]; simpl; [reflexivity|].
  rewrite forallb_app, IH. simpl.
  rewrite andb_true_r. apply andb_comm.
Qed.

Lemma rstrip_in (x : char) (s : str) : In x (py_rstrip s) -> In x s.
Proof.
  unfold py_rstrip. intros H.
  apply in_rev in H. apply lstrip_in in H.
  apply in_rev. exact H.
Qed.

Lemma strip_in (x : char) (s : str) : In x (py_strip s) -> In x s.
Proof.
  unfold py_strip. intros H.
  apply lstrip_in, rstrip_in, H.
Qed.

Lemma strip_no_trail (s : str) : no_trail_ws (py_strip s) = true.
Proof.
  unfold no_trail_ws, py_strip, py_rstrip.
  rewrite rev_involutive. apply lstrip_no_lead.
Qed.

Lemma rstrip_keeps_lead (t : str) :
  no_lead_ws t = true -> no_lead_ws (py_rstrip t) = true.
Proof.
  unfold py_rstrip. destruct t as [|c r]; [reflexivity|].
  simpl. intros Hc.
  destruct (py_isspace c) eqn:E; [discriminate|].
  destruct (lstrip_keeps_last (rev r) c E) as [a' Ha'].
  rewrite Ha', rev_app_distr. simpl. rewrite E. reflexivity.
Qed.

Lemma strip_no_lead (s : str) : no_lead_ws (py_strip s) = true.
Proof.
  unfold py_strip. apply rstrip_keeps_lead, lstrip_no_lead.
Qed.

Lemma strip_id (s : str) :
  no_lead_ws s = true -> no_trail_ws s = true -> py_strip s = s.
Proof.
  unfold py_strip, py_rstrip, no_trail_ws. intros Hl Ht.
  rewrite (lstrip_id s Hl), (lstrip_id (rev s) Ht).
  apply rev_involutive.
Qed.

Lemma strip_nil_iff (s : str) :
  py_strip s = [] <-> forallb py_isspace s = true.
Proof.
  unfold py_strip, py_rstrip. split.
  - intros H.
    apply (f_equal (@rev char)) in H.
    rewrite rev_involutive in H. simpl in H.
    apply lstrip_nil_iff in H. rewrite forallb_rev_space in H.
    apply lstrip_nil_iff.
    apply no_lead_nil_blank; [apply lstrip_no_lead|exact H].
  - intros H. apply lstrip_nil_iff in H. rewrite H. reflexivity.
Qed.

Lemma strip_cons_truthy (c : char) (l : str) :
  py_truthy (py_strip l) = true -> py_truthy (py_strip (c :: l)) = true.
Proof.
  intros H. destruct (py_strip (c :: l)) eqn:E; [|reflexivity].
  apply strip_nil_iff in E. simpl in E.
  apply andb_prop in E. destruct E as [_ E].
  apply strip_nil_iff in E. rewrite E in H. discriminate.
Qed.

Lemma no_trail_ws_one (c : char) : no_trail_ws [c] = negb (py_isspace c).
Proof. reflexivity. Qed.

Lemma no_trail_ws_app (a b : str) :
  b <> [] -> no_trail_ws (a ++ b) = no_trail_ws b.
Proof.
  unfold no_trail_ws. intros Hb. rewrite rev_app_distr.
  destruct (rev b) as [|x t] eqn:E.
  - apply (f_equal (@rev char)) in E. rewrite rev_involutive in E.
    contradiction.
  - reflexivity.
Qed.

Lemma no_trail_ws_cons (c : char) (r : str) :
  r <> [] -> no_trail_ws (c :: r) = no_trail_ws r.
Proof. intros H. apply (no_trail_ws_app [c] r H). Qed.

Lemma no_trail_ws_not_space (a : str) : no_trail_ws (a ++ [SP]) = false.
Proof.
  rewrite no_trail_ws_app by discriminate. reflexivity.
Qed.

(** ** The lines the cleaner keeps and their join *)

Lemma split_lines_no_newline (s : str) :
  Forall (fun l => ~ In NL l) (split_lines s).
Proof.
  induction s as [|c r IH]; simpl.
  - constructor; [tauto|constructor].
  - destruct (c =? NL) eqn:E.
    + constructor; [tauto|exact IH].
    + apply N.eqb_neq in E.
      destruct (split_lines r) as [|l ls]; simpl.
      * constructor; [|constructor]. simpl. intros [H|[]]. congruence.
      * inversion IH as [|? ? Hl Hls]; subst.
        constructor; [|exact Hls].
        simpl. intros [H|H]; [congruence|tauto].
Qed.

Lemma clean_lines_kept (R : str) : Forall kept_line (clean_lines R).
Proof.
  unfold clean_lines. rewrite py_split_newline.
  pose proof (split_lines_no_newline R) as H.
  induction H as [|l ls Hl Hls IH]; simpl; [constructor|].
  destruct (py_strip l) as [|c t] eqn:E; simpl; [exact IH|].
  constructor; [|exact IH].
  rewrite <- E. repeat split.
  - rewrite E. discriminate.
  - apply strip_no_lead.
  - apply strip_no_trail.
  - intros Hin. apply Hl. apply strip_in, Hin.
Qed.

Lemma join_kept (ls : list str) :
  Forall kept_line ls ->
  no_lead_ws (py_join [SP] ls) = true /\
  no_trail_ws (py_join [SP] ls) = true /\
  ~ In NL (py_join [SP] ls) /\
  (ls <> [] -> py_join [SP] ls <> []).
Proof.
  induction 1 as [|l ls Hl Hls IH].
  - simpl. repeat split; try tauto.
  - destruct Hl as (Hne & Hlead & Htrail & Hnl).
    destruct IH as (IHlead & IHtrail & IHnl & IHne).
    destruct ls as [|l' ls'].
    + simpl. repeat split; auto.
    + change (py_join [SP] (l :: l' :: ls'))
        with (l ++ [SP] ++ py_join [SP] (l' :: ls')).
      assert (Hj : py_join [SP] (l' :: ls') <> []) by (apply IHne; discriminate).
      repeat split.
      * destruct l; [contradiction|exact Hlead].
      * rewrite app_assoc, no_trail_ws_app by exact Hj. exact IHtrail.
      * rewrite !in_app_iff. simpl. intros [H|[[H|[]]|H]]; try tauto.
        discriminate.
      * intros _. destruct l; [contradiction|discriminate].
Qed.

Lemma clean_joined_kept (R : str) :
  no_lead_ws (clean_joined R) = true /\
  no_trail_ws (clean_joined R) = true /\
  ~ In NL (clean_joined R).
Proof.
  destruct (join_kept _ (clean_lines_kept R)) as (H1 & H2 & H3 & _).
  auto.
Qed.

(** ** Sentence breaks *)

(** Induction that follows the two-character window of
    [break_sentences]. *)
Lemma str_ind2 (P : str -> Prop) :
  P [] ->
  (forall c, P [c]) ->
  (forall c d r, P r -> P (d :: r) -> P (c :: d :: r)) ->
  forall s, P s.
Proof.
  intros H0 H1 H2 s.
  enough (H : P s /\ forall c, P (c :: s)) by apply H.
  induction s as [|d r [IHr IHd]]; split; auto.
Qed.

Lemma break_sentences_step (c d : char) (r : str) :
  break_sentences (c :: d :: r) =
  if (c =? DOT) && (d =? SP)
  then DOT :: NL :: NL :: break_sentences r
  else c :: break_sentences (d :: r).
Proof. reflexivity. Qed.

Lemma break_sentences_not_nil (c : char) (s : str) :
  break_sentences (c :: s) <> [].
Proof.
  destruct (break_sentences_cons c s) as [t Ht]. rewrite Ht. discriminate.
Qed.

Lemma break_sentences_no_lead (s : str) :
  no_lead_ws (break_sentences s) = no_lead_ws s.
Proof.
  destruct s as [|c r]; [reflexivity|].
  destruct (break_sentences_cons c r) as [t Ht]. rewrite Ht. reflexivity.
Qed.

Lemma period_space_tail (r : str) :
  no_trail_ws (DOT :: SP :: r) = true -> r <> [].
Proof. intros H Hr. subst r. discriminate. Qed.

Lemma break_sentences_no_trail (s : str) :
  no_trail_ws s = true -> no_trail_ws (break_sentences s) = true.
Proof.
  induction s as [| c | c d r IHr IHd] using str_ind2; intros H.
  - reflexivity.
  - exact H.
  - rewrite break_sentences_step.
    destruct ((c =? DOT) && (d =? SP)) eqn:E.
    + apply andb_prop in E. destruct E as [Ec Ed].
      apply N.eqb_eq in Ec, Ed. subst c d.
      pose proof (period_space_tail r H) as Hr.
      destruct r as [|x r']; [contradiction|].
      rewrite !no_trail_ws_cons in H by discriminate.
      rewrite !no_trail_ws_cons
        by (try discriminate; apply break_sentences_not_nil).
      apply IHr, H.
    + rewrite no_trail_ws_cons in H by discriminate.
      rewrite no_trail_ws_cons by apply break_sentences_not_nil.
      apply IHd, H.
Qed.

Lemma break_sentences_no_period_space (s : str) :
  py_in [DOT; SP] (break_sentences s) = false.
Proof.
  induction s as [| c | c d r IHr IHd] using str_ind2.
  - reflexivity.
  - simpl. rewrite andb_false_r. reflexivity.
  - rewrite break_sentences_step.
    destruct ((c =? DOT) && (d =? SP)) eqn:E.
    + change (py_in [DOT; SP] (DOT :: NL :: NL :: break_sentences r))
        with (false || (false || (false || py_in [DOT; SP] (break_sentences r)))).
      simpl. exact IHr.
    + destruct (break_sentences_cons d r) as [t Ht].
      rewrite Ht in *.
      change (py_in [DOT; SP] (c :: d :: t))
        with ((DOT =? c) && ((SP =? d) && true) || py_in [DOT; SP] (d :: t)).
      rewrite IHd, andb_true_r, (N.eqb_sym DOT c), (N.eqb_sym SP d), E.
      reflexivity.
Qed.

Lemma split_lines_cons (c : char) (s : str) :
  c <> NL -> split_lines (c :: s) = cons_head c (split_lines s).
Proof.
  intros H. simpl. apply N.eqb_neq in H. rewrite H. reflexivity.
Qed.

Lemma split_lines_break (r : str) :
  split_lines (DOT :: NL :: NL :: break_sentences r)
  = [DOT] :: [] :: split_lines (break_sentences r).
Proof. reflexivity. Qed.

Lemma strip_one (c : char) : py_isspace c = false -> py_strip [c] = [c].
Proof.
  intros H. apply strip_id; [|rewrite no_trail_ws_one]; simpl; rewrite H;
    reflexivity.
Qed.

Lemma break_sentences_paragraphs (s : str) :
  s <> [] -> ~ In NL s -> no_trail_ws s = true ->
  paragraphs (split_lines (break_sentences s)) = true.
Proof.
  induction s as [| c | c d r IHr IHd] using str_ind2; intros Hne Hnl Ht.
  - contradiction.
  - assert (Hc : c <> NL) by (intros ->; apply Hnl; left; reflexivity).
    change (break_sentences [c]) with [c].
    rewrite split_lines_cons by exact Hc.
    rewrite no_trail_ws_one in Ht. apply negb_true_iff in Ht.
    simpl. rewrite (strip_one c Ht). reflexivity.
  - rewrite break_sentences_step.
    destruct ((c =? DOT) && (d =? SP)) eqn:E.
    + apply andb_prop in E. destruct E as [Ec Ed].
      apply N.eqb_eq in Ec, Ed. subst c d.
      pose proof (period_space_tail r Ht) as Hr.
      rewrite split_lines_break.
      change (paragraphs ([DOT] :: [] :: split_lines (break_sentences r)))
        with (paragraphs (split_lines (break_sentences r))).
      apply IHr.
      * exact Hr.
      * intros Hin. apply Hnl. right. right. exact Hin.
      * rewrite !no_trail_ws_cons in Ht by (try discriminate; exact Hr).
        exact Ht.
    + assert (Hc : c <> NL) by (intros ->; apply Hnl; left; reflexivity).
      rewrite split_lines_cons by exact Hc.
      assert (IH : paragraphs (split_lines (break_sentences (d :: r))) = true).
      { apply IHd.
        - discriminate.
        - intros Hin. apply Hnl. right. exact Hin.
        - rewrite no_trail_ws_cons in Ht by discriminate. exact Ht. }
      destruct (split_lines (break_sentences (d :: r))) as [|l rest];
        [discriminate|].
      simpl in IH |- *. apply andb_prop in IH. destruct IH as [Hl Hrest].
      rewrite Hrest, (strip_cons_truthy c l Hl). reflexivity.
Qed.

(** ** Cleaning a cleaned text *)

Lemma kept_trimmed_nil (ls : list str) :
  kept_trimmed ([] :: ls) = kept_trimmed ls.
Proof. reflexivity. Qed.

Lemma kept_trimmed_cons (l : str) (ls : list str) :
  l <> [] -> no_lead_ws l = true -> no_trail_ws l = true ->
  kept_trimmed (l :: ls) = l :: kept_trimmed ls.
Proof.
  intros Hne Hl Ht. unfold kept_trimmed, trim. cbn [filter].
  rewrite (strip_id l Hl Ht).
  destruct l; [contradiction|]. cbn [is_empty negb map].
  rewrite (strip_id _ Hl Ht). reflexivity.
Qed.

(** The first line of the broken text, followed by the later lines as the
    next cleaning joins them, is the text before the breaks, when no later
    line starts with white space. *)
Lemma break_sentences_lines (s : str) :
  s <> [] -> ~ In NL s -> no_trail_ws s = true ->
  forallb no_lead_ws (tl (split_lines (break_sentences s))) = true ->
  exists l rest,
    split_lines (break_sentences s) = l :: rest /\
    l <> [] /\ no_trail_ws l = true /\
    l ++ flat_map (fun y => SP :: y) (kept_trimmed rest) = s.
Proof.
  induction s as [| c | c d r IHr IHd] using str_ind2; intros Hne Hnl Ht Hlines.
  - contradiction.
  - assert (Hc : c <> NL) by (intros ->; apply Hnl; left; reflexivity).
    exists [c], []. change (break_sentences [c]) with [c].
    rewrite split_lines_cons by exact Hc.
    repeat split; [discriminate|exact Ht].
  - rewrite break_sentences_step in Hlines |- *.
    destruct ((c =? DOT) && (d =? SP)) eqn:E.
    + apply andb_prop in E. destruct E as [Ec Ed].
      apply N.eqb_eq in Ec, Ed. subst c d.
      pose proof (period_space_tail r Ht) as Hr.
      rewrite split_lines_break in Hlines |- *.
      cbn [tl forallb no_lead_ws andb] in Hlines.
      destruct IHr as (l & rest & HL & Hlne & Hlt & Heq).
      * exact Hr.
      * intros Hin. apply Hnl. right. right. exact Hin.
      * rewrite !no_trail_ws_cons in Ht by (try discriminate; exact Hr).
        exact Ht.
      * destruct (split_lines (break_sentences r)); [reflexivity|].
        cbn [tl]. cbn [forallb] in Hlines.
        apply andb_prop in Hlines. apply Hlines.
      * rewrite HL in Hlines |- *. cbn [forallb] in Hlines.
        apply andb_prop in Hlines. destruct Hlines as [Hll Hrest].
        exists [DOT], ([] :: l :: rest).
        repeat split; [discriminate|].
        rewrite kept_trimmed_nil, (kept_trimmed_cons l rest Hlne Hll Hlt).
        cbn [flat_map app]. rewrite Heq. reflexivity.
    + assert (Hc : c <> NL) by (intros ->; apply Hnl; left; reflexivity).
      rewrite split_lines_cons in Hlines |- * by exact Hc.
      destruct IHd as (l & rest & HL & Hlne & Hlt & Heq).
      * discriminate.
      * intros Hin. apply Hnl. right. exact Hin.
      * rewrite no_trail_ws_cons in Ht by discriminate. exact Ht.
      * destruct (split_lines (break_sentences (d :: r))); exact Hlines.
      * rewrite HL. exists (c :: l), rest. cbn [cons_head].
        repeat split.
        -- discriminate.
        -- rewrite no_trail_ws_cons by exact Hlne. exact Hlt.
        -- cbn [app]. rewrite Heq. reflexivity.
Qed.

Lemma clean_spec_break (s : str) :
  no_lead_ws s = true -> no_trail_ws s = true -> ~ In NL s ->
  forallb no_lead_ws (split_lines (break_sentences s)) = true ->
  clean_spec (break_sentences s) = break_sentences s.
Proof.
  intros Hl Ht Hnl Hlines.
  destruct s as [|c r]; [reflexivity|].
  destruct (break_sentences_lines (c :: r)) as (l & rest & HL & Hlne & Hlt & Heq);
    try assumption; try discriminate.
  - destruct (split_lines (break_sentences (c :: r))); [reflexivity|].
    cbn [forallb] in Hlines. apply andb_prop in Hlines. apply Hlines.
  - unfold clean_spec. fold (kept_trimmed (split_lines (break_sentences (c :: r)))).
    rewrite HL in Hlines |- *. cbn [forallb] in Hlines.
    apply andb_prop in Hlines. destruct Hlines as [Hll _].
    rewrite (kept_trimmed_cons l rest Hlne Hll Hlt).
    cbn [join_space]. rewrite Heq. reflexivity.
Qed.

(** ** Idempotence holds only on trimmed lines *)

Lemma unbreak_break (s : str) :
  ~ In NL s -> unbreak (break_sentences s) = s.
Proof.
  induction s as [| c | c d r IHr IHd] using str_ind2; intros Hnl.
  - reflexivity.
  - reflexivity.
  - rewrite break_sentences_step.
    destruct ((c =? DOT) && (d =? SP)) eqn:E.
    + apply andb_prop in E. destruct E as [Ec Ed].
      apply N.eqb_eq in Ec, Ed. subst c d.
      change (unbreak (DOT :: NL :: NL :: break_sentences r))
        with (DOT :: SP :: unbreak (break_sentences r)).
      rewrite IHr; [reflexivity|].
      intros Hin. apply Hnl. right. right. exact Hin.
    + assert (Hd : d <> NL) by (intros ->; apply Hnl; right; left; reflexivity).
      assert (IH : unbreak (break_sentences (d :: r)) = d :: r).
      { apply IHd. intros Hin. apply Hnl. right. exact Hin. }
      destruct (break_sentences_cons d r) as [t Ht]. rewrite Ht in *.
      apply N.eqb_neq in Hd.
      destruct t as [|e t'].
      * change (unbreak [c; d]) with (c :: unbreak [d]).
        rewrite IH. reflexivity.
      * change (unbreak (c :: d :: e :: t'))
          with (if (c =? DOT) && (d =? NL) && (e =? NL)
                then DOT :: SP :: unbreak t'
                else c :: unbreak (d :: e :: t')).
        rewrite Hd, andb_false_r. cbn [andb]. rewrite IH. reflexivity.
Qed.

Lemma break_sentences_inj (a b : str) :
  ~ In NL a -> ~ In NL b ->
  break_sentences a = break_sentences b -> a = b.
Proof.
  intros Ha Hb H.
  rewrite <- (unbreak_break a Ha), <- (unbreak_break b Hb), H. reflexivity.
Qed.

Lemma lstrip_length (s : str) :
  (List.length (py_lstrip s) <= List.length s)%nat.
Proof.
  induction s as [|c r IH]; simpl; [apply le_n|].
  destruct (py_isspace c); [apply le_S, IH|apply le_n].
Qed.

Lemma lstrip_length_eq (s : str) :
  List.length (py_lstrip s) = List.length s -> no_lead_ws s = true.
Proof.
  destruct s as [|c r]; simpl; [reflexivity|].
  destruct (py_isspace c); [|reflexivity].
  intros H. pose proof (lstrip_length r) as Hle.
  rewrite H in Hle. exfalso. exact (Nat.nle_succ_diag_l _ Hle).
Qed.

Lemma rstrip_length (s : str) :
  (List.length (py_rstrip s) <= List.length s)%nat.
Proof.
  unfold py_rstrip. rewrite length_rev, <- (length_rev s).
  apply lstrip_length.
Qed.

Lemma strip_length (s : str) :
  (List.length (py_strip s) <= List.length s)%nat.
Proof.
  unfold py_strip.
  apply (Nat.le_trans _ _ _ (rstrip_length _) (lstrip_length s)).
Qed.

Lemma strip_length_eq (s : str) :
  (List.length s <= List.length (py_strip s))%nat -> no_lead_ws s = true.
Proof.
  intros H. apply lstrip_length_eq. apply Nat.le_antisymm.
  - apply lstrip_length.
  - apply (Nat.le_trans _ _ _ H). apply rstrip_length.
Qed.

Lemma no_trail_truthy (l : str) :
  l <> [] -> no_trail_ws l = true -> py_strip l <> [].
Proof.
  intros Hne Ht Hs. apply strip_nil_iff in Hs.
  rewrite <- forallb_rev_space in Hs. unfold no_trail_ws in Ht.
  destruct (rev l) as [|c t] eqn:E.
  - apply (f_equal (@rev char)) in E. rewrite rev_involutive in E.
    contradiction.
  - simpl in Hs, Ht. destruct (py_isspace c); discriminate.
Qed.

Lemma kept_trimmed_truthy (l : str) (ls : list str) :
  py_strip l <> [] -> kept_trimmed (l :: ls) = py_strip l :: kept_trimmed ls.
Proof.
  intros H. unfold kept_trimmed, trim. cbn [filter].
  destruct (py_strip l) eqn:E; [contradiction|].
  cbn [is_empty negb map]. rewrite E. reflexivity.
Qed.

(** The length of the re-joined later lines of a broken text. *)
Lemma break_sentences_lines_length (s : str) :
  s <> [] -> ~ In NL s -> no_trail_ws s = true ->
  exists l rest,
    split_lines (break_sentences s) = l :: rest /\
    l <> [] /\ no_trail_ws l = true /\
    forall n,
      n = List.length (flat_map (fun y => SP :: y) (kept_trimmed rest)) ->
      (n + List.length l <= List.length s)%nat /\
      ((List.length s <= n + List.length l)%nat ->
       forallb no_lead_ws rest = true).
Proof.
  induction s as [| c | c d r IHr IHd] using str_ind2; intros Hne Hnl Ht.
  - contradiction.
  - assert (Hc : c <> NL) by (intros ->; apply Hnl; left; reflexivity).
    exists [c], []. change (break_sentences [c]) with [c].
    rewrite split_lines_cons by exact Hc.
    repeat split; try discriminate; try exact Ht.
    subst n. apply le_n.
  - rewrite break_sentences_step.
    destruct ((c =? DOT) && (d =? SP)) eqn:E.
    + apply andb_prop in E. destruct E as [Ec Ed].
      apply N.eqb_eq in Ec, Ed. subst c d.
      pose proof (period_space_tail r Ht) as Hr.
      rewrite split_lines_break.
      destruct IHr as (l & rest & HL & Hlne & Hlt & Hlen).
      * exact Hr.
      * intros Hin. apply Hnl. right. right. exact Hin.
      * rewrite !no_trail_ws_cons in Ht by (try discriminate; exact Hr).
        exact Ht.
      * rewrite HL. exists [DOT], ([] :: l :: rest).
        repeat split; try discriminate.
        -- subst n.
           rewrite kept_trimmed_nil,
             (kept_trimmed_truthy l rest (no_trail_truthy l Hlne Hlt)).
           cbn [flat_map]. rewrite length_app.
           destruct (Hlen _ eq_refl) as [Hle _].
           pose proof (strip_length l) as Hsl.
           cbn [List.length]. lia.
        -- subst n.
           rewrite kept_trimmed_nil,
             (kept_trimmed_truthy l rest (no_trail_truthy l Hlne Hlt)).
           cbn [flat_map]. rewrite length_app.
           destruct (Hlen _ eq_refl) as [Hle Heq].
           pose proof (strip_length l) as Hsl.
           cbn [List.length]. intros H.
           cbn [forallb no_lead_ws andb].
           rewrite (strip_length_eq l) by lia.
           apply Heq. lia.
    + assert (Hc : c <> NL) by (intros ->; apply Hnl; left; reflexivity).
      rewrite split_lines_cons by exact Hc.
      destruct IHd as (l & rest & HL & Hlne & Hlt & Hlen).
      * discriminate.
      * intros Hin. apply Hnl. right. exact Hin.
      * rewrite no_trail_ws_cons in Ht by discriminate. exact Ht.
      * rewrite HL. exists (c :: l), rest. cbn [cons_head].
        repeat split.
        -- discriminate.
        -- rewrite no_trail_ws_cons by exact Hlne. exact Hlt.
        -- destruct (Hlen _ H) as [Hle _].
           cbn [List.length] in Hle |- *. lia.
        -- destruct (Hlen _ H) as [_ Heq]. intros H'. apply Heq.
           cbn [List.length] in H' |- *. lia.
Qed.

Lemma clean_spec_break_only_if (s : str) :
  no_trail_ws s = true -> ~ In NL s ->
  join_space (kept_trimmed (split_lines (break_sentences s))) = s ->
  forallb no_lead_ws (split_lines (break_sentences s)) = true.
Proof.
  intros Ht Hnl Hjoin.
  destruct s as [|c r]; [reflexivity|].
  destruct (break_sentences_lines_length (c :: r))
    as (l & rest & HL & Hlne & Hlt & Hlen);
    try assumption; try discriminate.
  rewrite HL in Hjoin |- *.
  rewrite (kept_trimmed_truthy l rest (no_trail_truthy l Hlne Hlt)) in Hjoin.
  cbn [join_space] in Hjoin.
  apply (f_equal (@List.length char)) in Hjoin.
  rewrite length_app in Hjoin.
  destruct (Hlen _ eq_refl) as [Hle Heq].
  pose proof (strip_length l) as Hsl.
  cbn [forallb]. rewrite (strip_length_eq l) by lia.
  apply Heq. lia.
Qed.

(** The condition of the amended C3 is also necessary. *)
Lemma clean_idempotent_only_if (R : str) :
  _clean_response (_clean_response R) = _clean_response R ->
  forallb no_lead_ws (py_split [NL] (_clean_response R)) = true.
Proof.
  intros H. rewrite py_split_newline.
  destruct (clean_joined_kept R) as (_ & Ht & Hnl).
  destruct (clean_joined_kept (_clean_response R)) as (_ & _ & Hnl2).
  rewrite (clean_response_joined (_clean_response R)) in H.
  rewrite (clean_response_joined R) in H at 2.
  apply break_sentences_inj in H; try assumption.
  rewrite clean_response_joined.
  apply clean_spec_break_only_if; try assumption.
  rewrite <- H at 2.
  unfold clean_joined at 2, clean_lines.
  rewrite py_join_space, py_split_newline, comprehension_filter_map.
  rewrite clean_response_joined. reflexivity.
Qed.

(** ** Rendering the prompt *)

Lemma render_ok (c q : str) : render c q = inr (rendered c q).
Proof.
  unfold render, rendered, PromptTemplate_format, py_format, football_prompt,
    template.
  vm_compute. reflexivity.
Qed.

Lemma startswith_app (x b : str) : py_startswith x (x ++ b) = true.
Proof.
  induction x as [|c x IH]; simpl; [reflexivity|].
  rewrite N.eqb_refl. exact IH.
Qed.

Lemma py_in_here (x b : str) : py_in x (x ++ b) = true.
Proof.
  destruct (x ++ b) eqn:E; simpl; rewrite <- E, startswith_app; reflexivity.
Qed.

Lemma py_in_app_r (x a s : str) : py_in x s = true -> py_in x (a ++ s) = true.
Proof.
  intros H. induction a as [|c a IH]; [exact H|].
  simpl. rewrite IH. apply orb_true_r.
Qed.

(** ** The context formatter *)

Lemma enumerate_entries (k : nat) (P : list Document) (d : Document) :
  map (fun '(i, doc) =>
         SOURCE_ ++ py_str_nat (i + 1) ++ COLON_NL ++ page_content doc)
      (enumerate_from k P)
  = map (fun i => source_entry i (page_content (nth (i - k) P d)))
        (seq k (List.length P)).
Proof.
  revert k. induction P as [|x r IH]; intros k; [reflexivity|].
  cbn [enumerate_from map List.length seq].
  rewrite Nat.sub_diag, IH. cbn [nth]. f_equal.
  apply map_ext_in. intros i Hi. apply in_seq in Hi.
  replace (i - k)%nat with (S (i - S k)) by lia. reflexivity.
Qed.

Lemma format_context_spec (P : list Document) :
  _format_context P = format_spec P.
Proof.
  unfold _format_context, format_spec, enumerate.
  rewrite (enumerate_entries 0 P (mkDocument [] [])).
  f_equal. apply map_ext. intros i. rewrite Nat.sub_0_r. reflexivity.
Qed.

Lemma startswith_delim (pat a b : str) (d : char) :
  ~ In d pat -> py_startswith pat (a ++ d :: b) = py_startswith pat a.
Proof.
  revert a. induction pat as [|p pat IH]; intros a Hd; [reflexivity|].
  destruct a as [|x a]; simpl.
  - destruct (p =? d) eqn:E; [|reflexivity].
    apply N.eqb_eq in E. exfalso. apply Hd. left. exact E.
  - rewrite IH; [reflexivity|]. intros H. apply Hd. right. exact H.
Qed.

Lemma startswith_skipn (pat a b : str) :
  py_startswith pat a = true ->
  skipn (List.length pat) (a ++ b) = skipn (List.length pat) a ++ b.
Proof.
  revert a. induction pat as [|p pat IH]; intros a H; [reflexivity|].
  destruct a as [|x a]; [discriminate|].
  simpl in H. apply andb_prop in H. destruct H as [_ H].
  simpl. apply IH, H.
Qed.

Lemma occ_tails_delim (p : char) (pat a b : str) (d : char) :
  ~ In d (p :: pat) ->
  occ_tails (p :: pat) (a ++ d :: b)
  = map (fun t => t ++ d :: b) (occ_tails (p :: pat) a)
    ++ occ_tails (p :: pat) b.
Proof.
  intros Hd. induction a as [|x a IH].
  - pose proof (startswith_delim (p :: pat) [] b d Hd) as E.
    change (py_startswith (p :: pat) (d :: b) = false) in E.
    cbn [app occ_tails map]. rewrite E. reflexivity.
  - change ((x :: a) ++ d :: b) with (x :: (a ++ d :: b)).
    cbn [occ_tails]. rewrite IH, map_app, <- app_assoc. f_equal.
    change (x :: (a ++ d :: b)) with ((x :: a) ++ d :: b).
    rewrite (startswith_delim (p :: pat) (x :: a) b d Hd).
    destruct (py_startswith (p :: pat) (x :: a)) eqn:E; [|reflexivity].
    rewrite (startswith_skipn _ _ _ E). reflexivity.
Qed.

Lemma occ_tails_absent (p : char) (pat s : str) :
  ~ In p s -> occ_tails (p :: pat) s = [].
Proof.
  induction s as [|c s IH]; intros H; [reflexivity|].
  cbn [occ_tails py_startswith].
  destruct (p =? c) eqn:E.
  - apply N.eqb_eq in E. exfalso. apply H. left. symmetry. exact E.
  - rewrite IH; [reflexivity|]. intros Hin. apply H. right. exact Hin.
Qed.

Lemma occ_tails_not_in (pat s : str) :
  py_in pat s = false -> occ_tails pat s = [].
Proof.
  induction s as [|c s IH]; intros H; [reflexivity|].
  cbn [py_in] in H. apply orb_false_iff in H. destruct H as [H1 H2].
  cbn [occ_tails]. rewrite H1, (IH H2). reflexivity.
Qed.

Lemma uint_chars_digits (d : Decimal.uint) : ~ In 83 (uint_chars d).
Proof.
  induction d; simpl; intros H; try tauto;
    destruct H as [H|H]; try discriminate; auto.
Qed.

Lemma occ_tails_label (t : str) :
  occ_tails SOURCE_ (SOURCE_ ++ t) = t :: occ_tails SOURCE_ t.
Proof. reflexivity. Qed.

Lemma occ_source_delim (a b : str) (d : char) :
  ~ In d SOURCE_ ->
  occ_tails SOURCE_ (a ++ d :: b)
  = map (fun t => t ++ d :: b) (occ_tails SOURCE_ a) ++ occ_tails SOURCE_ b.
Proof. intros H. exact (occ_tails_delim _ _ a b d H). Qed.

Lemma colon_not_in_source : ~ In 58 SOURCE_.
Proof.
  simpl. intros H.
  repeat (destruct H as [H|H]; [discriminate|]). contradiction.
Qed.

Lemma newline_not_in_source : ~ In NL SOURCE_.
Proof.
  simpl. intros H.
  repeat (destruct H as [H|H]; [discriminate|]). contradiction.
Qed.

Lemma occ_source_newline (s : str) :
  occ_tails SOURCE_ (NL :: s) = occ_tails SOURCE_ s.
Proof. reflexivity. Qed.

Lemma occ_source_digits (n : nat) : occ_tails SOURCE_ (py_str_nat n) = [].
Proof. apply (occ_tails_absent 83). apply uint_chars_digits. Qed.

Lemma format_from_cons (k : nat) (x : Document) (r : list Document) :
  format_from k (x :: r)
  = SOURCE_ ++ py_str_nat (k + 1) ++ COLON_NL ++ page_content x ++ sep_tail k r.
Proof.
  unfold format_from. destruct r as [|y r].
  - cbn [enumerate_from map py_join sep_tail].
    rewrite app_nil_r. reflexivity.
  - cbn [sep_tail]. unfold format_from.
    change (enumerate_from k (x :: y :: r))
      with ((k, x) :: enumerate_from (S k) (y :: r)).
    change (enumerate_from (S k) (y :: r))
      with ((S k, y) :: enumerate_from (S (S k)) r).
    cbn [map]. rewrite py_join_cons2, <- !app_assoc. reflexivity.
Qed.

Lemma occ_tails_format_from (k : nat) (x : Document) (r : list Document) :
  occ_tails SOURCE_ (format_from k (x :: r))
  = (py_str_nat (k + 1) ++ COLON_NL ++ page_content x ++ sep_tail k r)
    :: map (fun t => t ++ sep_tail k r) (occ_tails SOURCE_ (page_content x))
    ++ occ_tails SOURCE_ (format_from (S k) r).
Proof.
  rewrite format_from_cons, occ_tails_label. f_equal.
  change (COLON_NL ++ page_content x ++ sep_tail k r)
    with (58 :: NL :: page_content x ++ sep_tail k r).
  rewrite (occ_source_delim _ _ 58 colon_not_in_source).
  rewrite occ_source_digits, occ_source_newline. cbn [map app].
  destruct r as [|y r]; cbn [sep_tail].
  - rewrite app_nil_r. cbn [format_from enumerate_from map py_join occ_tails].
    rewrite app_nil_r. symmetry. rewrite <- (map_id (occ_tails _ _)) at 2.
    apply map_ext. intros t. apply app_nil_r.
  - rewrite (occ_source_delim _ _ NL newline_not_in_source).
    rewrite occ_source_newline. reflexivity.
Qed.

Lemma count_format_from (k : nat) (P : list Document) :
  count_sub SOURCE_ (format_from k P)
  = (List.length P
     + list_sum (map (fun d => count_sub SOURCE_ (page_content d)) P))%nat.
Proof.
  unfold count_sub. revert k.
  induction P as [|x r IH]; intros k; [reflexivity|].
  rewrite occ_tails_format_from.
  cbn [List.length map].
  rewrite length_app, length_map, IH.
  change (list_sum (?a :: ?l)) with (a + list_sum l)%nat.
  cbn [Nat.add]. f_equal. rewrite !Nat.add_assoc. f_equal.
  apply Nat.add_comm.
Qed.

Lemma numbered_format_from (k : nat) (P : list Document) :
  forallb (fun d => negb (py_in SOURCE_ (page_content d))) P = true ->
  List.length (occ_tails SOURCE_ (format_from k P)) = List.length P /\
  forall i, (i < List.length P)%nat ->
    exists rest,
      nth_error (occ_tails SOURCE_ (format_from k P)) i
      = Some (py_str_nat (k + i + 1) ++ COLON_NL ++ rest).
Proof.
  revert k. induction P as [|x r IH]; intros k H.
  - split; [reflexivity|]. simpl. intros i Hi. lia.
  - cbn [forallb] in H. apply andb_prop in H. destruct H as [Hx Hr].
    apply negb_true_iff in Hx.
    rewrite occ_tails_format_from, (occ_tails_not_in _ _ Hx).
    cbn [map app]. destruct (IH (S k) Hr) as [IHlen IHnth].
    split; [simpl; rewrite IHlen; reflexivity|].
    intros [|i] Hi.
    + rewrite Nat.add_0_r. eexists. reflexivity.
    + cbn [nth_error]. simpl in Hi.
      destruct (IHnth i ltac:(lia)) as [rest Hrest].
      exists rest. rewrite Hrest.
      replace (S k + i + 1)%nat with (k + S i + 1)%nat by lia. reflexivity.
Qed.

(** ** Runs of the pipeline *)

Lemma get_answer_run (db : FAISS) (chat : ChatOpenAI) (question : str)
    (k : option Z) (log : list event) :
  get_answer (__init__ db chat) question k log
  = match similarity_search db question (arg_k k) with
    | inl e => (inl e, log ++ [SimilaritySearch question (arg_k k)])
    | inr docs =>
      let prompt := rendered (_format_context docs) question in
      (match invoke chat prompt with
       | inl e => inl e
       | inr reply => inr (_clean_response (content reply))
       end,
       log ++ [SimilaritySearch question (arg_k k); Invoke prompt])
    end.
Proof.
  unfold get_answer, bind, call. cbn [faiss_db llm prompt_template __init__].
  destruct (similarity_search db question (arg_k k)) as [e|docs];
    [reflexivity|].
  fold (render (_format_context docs) question).
  rewrite render_ok. cbn [lift ret].
  rewrite <- app_assoc. cbn [app].
  destruct (invoke chat (rendered (_format_context docs) question));
    reflexivity.
Qed.

(** * The claims of the specification *)

(** ** The response cleaner *)

(** C1.  For every raw string [R], [_clean_response R] is the result of
    splitting [R] on the newline character, discarding the lines that are
    empty after trimming, trimming the others, joining them with a single
    space and replacing every period followed by a space with a period
    followed by two newlines; on the golden input of the specification,
    and on the input of the unit test, it returns the three sentences with
    two newlines between them. *)
Theorem clean_response_refines_spec :
  (forall R : str, _clean_response R = clean_spec R) /\
  _clean_response golden_raw = golden_clean /\
  _clean_response test_input = golden_clean.
Proof.
  split; [exact clean_response_spec|].
  split; vm_compute; reflexivity.
Qed.

(** C10.  For every input [R], the output of [_clean_response] is the
    joined text with its sentence breaks rewritten, and no period
    followed by a space occurs in it. *)
Theorem clean_response_no_period_space (R : str) :
  _clean_response R = break_sentences (clean_joined R) /\
  py_in [DOT; SP] (_clean_response R) = false.
Proof.
  split; [apply clean_response_joined|].
  rewrite clean_response_joined. apply break_sentences_no_period_space.
Qed.

(** C3, as stated, fails: the cleaned form of ["a.  b"] contains no period
    followed by a space, and cleaning it again changes it. *)
Lemma clean_not_idempotent :
  ~ (py_in [DOT; SP] (_clean_response two_spaces_raw) = false ->
     _clean_response (_clean_response two_spaces_raw)
     = _clean_response two_spaces_raw).
Proof.
  intros H. specialize (H eq_refl). vm_compute in H. discriminate H.
Qed.

(** C3, amended.  For every raw string [R] such that no line of
    [_clean_response R] starts with white space, cleaning the cleaned text
    again returns it unchanged. *)
Theorem clean_idempotent_on_trimmed_lines (R : str) :
  forallb no_lead_ws (py_split [NL] (_clean_response R)) = true ->
  _clean_response (_clean_response R) = _clean_response R.
Proof.
  intros H. rewrite py_split_newline in H.
  rewrite (clean_response_spec (_clean_response R)).
  rewrite clean_response_joined in H |- *.
  destruct (clean_joined_kept R) as (Hl & Ht & Hnl).
  apply clean_spec_break; assumption.
Qed.

(** The golden input meets the condition of the amended C3. *)
Lemma clean_idempotent_on_trimmed_lines_witness :
  forallb no_lead_ws (py_split [NL] (_clean_response golden_raw)) = true /\
  _clean_response (_clean_response golden_raw) = _clean_response golden_raw.
Proof.
  split; [vm_compute; reflexivity|].
  apply (clean_idempotent_on_trimmed_lines golden_raw).
  vm_compute. reflexivity.
Defined.

(** C4, as stated, fails: the cleaned golden input has a line that is
    empty after trimming, the blank line of a sentence break. *)
Lemma clean_response_has_blank_line :
  ~ ((forall l, In l (py_split [NL] (_clean_response golden_raw)) ->
                py_strip l <> []) /\
     no_lead_ws (_clean_response golden_raw) = true /\
     no_trail_ws (_clean_response golden_raw) = true).
Proof.
  intros [H _]. apply (H []); [|reflexivity].
  vm_compute. right. left. reflexivity.
Qed.

(** C4, amended.  For every raw completion [R], [_clean_response R] has no
    leading and no trailing white space (trimming leaves it unchanged), and
    it is empty or its lines are lines that are not empty after trimming
    with exactly one empty line between two that follow each other. *)
Theorem clean_response_shape (R : str) :
  no_lead_ws (_clean_response R) = true /\
  no_trail_ws (_clean_response R) = true /\
  py_strip (_clean_response R) = _clean_response R /\
  (_clean_response R = [] \/
   paragraphs (py_split [NL] (_clean_response R)) = true).
Proof.
  rewrite py_split_newline, clean_response_joined.
  destruct (clean_joined_kept R) as (Hl & Ht & Hnl).
  assert (Hl' : no_lead_ws (break_sentences (clean_joined R)) = true)
    by (rewrite break_sentences_no_lead; exact Hl).
  assert (Ht' : no_trail_ws (break_sentences (clean_joined R)) = true)
    by (apply break_sentences_no_trail; exact Ht).
  repeat split; try assumption.
  - apply strip_id; assumption.
  - destruct (clean_joined R) as [|c r] eqn:E; [left; reflexivity|].
    right. apply break_sentences_paragraphs; [discriminate|assumption..].
Qed.

(** ** The context formatter *)

(** C5.  For every sequence of passages [P], [_format_context P] is the
    join, with a blank line between entries, of ["Source "], the number
    [i + 1], a colon, a newline and the content of the passage at position
    [i], for [i] from [0] to [len(P) - 1]; the empty sequence gives the
    empty string and the two test documents give the text of the unit
    test. *)
Theorem format_context_refines_spec :
  (forall P : list Document, _format_context P = format_spec P) /\
  _format_context [] = [] /\
  _format_context test_docs = test_docs_formatted.
Proof.
  split; [exact format_context_spec|].
  split; vm_compute; reflexivity.
Qed.

(** C6, as stated, fails: a passage whose content is ["Source 9"] gives a
    context with two occurrences of ["Source "] for one passage. *)
Lemma format_context_extra_source :
  count_sub SOURCE_ (_format_context quoting_docs)
  <> List.length quoting_docs.
Proof. vm_compute. discriminate. Qed.

(** C6, amended.  For every sequence of passages [P], the number of
    occurrences of ["Source "] in [_format_context P] is [len(P)] plus the
    number of occurrences inside the contents; when no content contains
    ["Source "] there are exactly [len(P)] occurrences, and the one at
    position [i] (0-based) is followed by the number [i + 1], a colon and a
    newline. *)
Theorem format_context_source_labels (P : list Document) :
  count_sub SOURCE_ (_format_context P)
  = (List.length P
     + list_sum (map (fun d => count_sub SOURCE_ (page_content d)) P))%nat /\
  (forallb (fun d => negb (py_in SOURCE_ (page_content d))) P = true ->
   count_sub SOURCE_ (_format_context P) = List.length P /\
   forall i, (i < List.length P)%nat ->
     exists rest,
       nth_error (occ_tails SOURCE_ (_format_context P)) i
       = Some (py_str_nat (i + 1) ++ COLON_NL ++ rest)).
Proof.
  change (_format_context P) with (format_from 0 P).
  split; [apply count_format_from|].
  intros H. apply (numbered_format_from 0 P H).
Qed.

(** The two test documents: two labels, the second numbered 2. *)
Lemma format_context_source_labels_witness :
  forallb (fun d => negb (py_in SOURCE_ (page_content d))) test_docs = true /\
  (1 < List.length test_docs)%nat /\
  count_sub SOURCE_ (_format_context test_docs) = List.length test_docs /\
  exists rest,
    nth_error (occ_tails SOURCE_ (_format_context test_docs)) 1
    = Some (py_str_nat 2 ++ COLON_NL ++ rest).
Proof.
  split; [vm_compute; reflexivity|].
  split; [apply le_n|].
  destruct (proj2 (format_context_source_labels test_docs)) as [Hc Hn].
  - vm_compute. reflexivity.
  - split; [exact Hc|]. apply (Hn 1%nat). apply le_n.
Defined.

(** ** The prompt *)

(** C9.  For every context [c] and question [q], rendering the template
    succeeds, and the prompt is the text of the template with [c] and [q]
    in place of the two slots: both occur in it whole. *)
Theorem prompt_contains_context_and_question (c q : str) :
  render c q
  = inr (prompt_head ++ c ++ prompt_middle ++ q ++ prompt_tail) /\
  py_in c (rendered c q) = true /\
  py_in q (rendered c q) = true.
Proof.
  split; [apply render_ok|]. unfold rendered. split.
  - apply py_in_app_r, py_in_here.
  - rewrite !app_assoc, <- app_assoc.
    apply py_in_app_r, py_in_here.
Qed.

(** ** The orchestrator *)

(** C2.  When the similarity search returns passages and the model
    replies, [get_answer] makes exactly one similarity search, with the
    question and [k] ([4] when [k] is left out), formats the passages,
    renders the template with that context and the question, calls the
    model exactly once, with the rendered prompt, and returns the cleaned
    reply.  With the mocked passage and the mocked reply of the unit test
    the answer is the non-empty reply and the index was queried once, with
    [k = 4]. *)
Theorem get_answer_pipeline :
  (forall (db : FAISS) (chat : ChatOpenAI) (question : str) (k : option Z)
          (docs : list Document) (reply : AIMessage) (log : list event),
     similarity_search db question (arg_k k) = inr docs ->
     invoke chat (rendered (_format_context docs) question) = inr reply ->
     render (_format_context docs) question
     = inr (rendered (_format_context docs) question) /\
     get_answer (__init__ db chat) question k log
     = (inr (_clean_response (content reply)),
        log ++ [SimilaritySearch question (arg_k k);
                Invoke (rendered (_format_context docs) question)])) /\
  arg_k None = 4%Z /\
  get_answer (__init__ mock_faiss mock_chat) ajax_question None []
  = (inr ajax_reply,
     [SimilaritySearch ajax_question 4;
      Invoke (rendered (_format_context [ajax_passage]) ajax_question)]) /\
  ajax_reply <> [].
Proof.
  split.
  - intros db chat question k docs reply log Hs Hi.
    split; [apply render_ok|].
    rewrite get_answer_run, Hs. cbn zeta. rewrite Hi. reflexivity.
  - split; [reflexivity|]. split; [|discriminate].
    rewrite get_answer_run. reflexivity.
Qed.

(** The mocked services, asked for two passages. *)
Lemma get_answer_pipeline_witness :
  similarity_search mock_faiss ajax_question (arg_k (Some 2%Z))
  = inr [ajax_passage] /\
  invoke mock_chat (rendered (_format_context [ajax_passage]) ajax_question)
  = inr (mkAIMessage ajax_reply) /\
  get_answer (__init__ mock_faiss mock_chat) ajax_question (Some 2%Z) []
  = (inr (_clean_response ajax_reply),
     [SimilaritySearch ajax_question 2;
      Invoke (rendered (_format_context [ajax_passage]) ajax_question)]).
Proof.
  split; [reflexivity|]. split; [reflexivity|].
  apply (proj1 get_answer_pipeline mock_faiss mock_chat ajax_question
           (Some 2%Z) [ajax_passage] (mkAIMessage ajax_reply) []);
    reflexivity.
Defined.

(** C7.  When the similarity search raises, [get_answer] raises the same
    exception, after that one call and without calling the model; when the
    search returns and the model call raises, [get_answer] raises the
    exception of the model, after one search and one model call.  Nothing
    is caught, retried or replaced with another answer. *)
Theorem get_answer_propagates :
  (forall (db : FAISS) (chat : ChatOpenAI) (question : str) (k : option Z)
          (e : exn) (log : list event),
     similarity_search db question (arg_k k) = inl e ->
     get_answer (__init__ db chat) question k log
     = (inl e, log ++ [SimilaritySearch question (arg_k k)])) /\
  (forall (db : FAISS) (chat : ChatOpenAI) (question : str) (k : option Z)
          (docs : list Document) (e : exn) (log : list event),
     similarity_search db question (arg_k k) = inr docs ->
     invoke chat (rendered (_format_context docs) question) = inl e ->
     get_answer (__init__ db chat) question k log
     = (inl e,
        log ++ [SimilaritySearch question (arg_k k);
                Invoke (rendered (_format_context docs) question)])).
Proof.
  split.
  - intros db chat question k e log Hs.
    rewrite get_answer_run, Hs. reflexivity.
  - intros db chat question k docs e log Hs Hi.
    rewrite get_answer_run, Hs. cbn zeta. rewrite Hi. reflexivity.
Qed.

(** An index that raises, and a model that raises behind a working
    index. *)
Lemma get_answer_propagates_witness :
  (similarity_search failing_faiss ajax_question (arg_k None) = inl store_down /\
   get_answer (__init__ failing_faiss mock_chat) ajax_question None []
   = (inl store_down, [SimilaritySearch ajax_question 4])) /\
  (similarity_search mock_faiss ajax_question (arg_k None)
   = inr [ajax_passage] /\
   invoke failing_chat (rendered (_format_context [ajax_passage]) ajax_question)
   = inl quota_exceeded /\
   get_answer (__init__ mock_faiss failing_chat) ajax_question None []
   = (inl quota_exceeded,
      [SimilaritySearch ajax_question 4;
       Invoke (rendered (_format_context [ajax_passage]) ajax_question)])).
Proof.
  split.
  - split; [reflexivity|].
    apply (proj1 get_answer_propagates failing_faiss mock_chat ajax_question
             None store_down []).
    reflexivity.
  - split; [reflexivity|]. split; [reflexivity|].
    apply (proj2 get_answer_propagates mock_faiss failing_chat ajax_question
             None [ajax_passage] quota_exceeded []);
      reflexivity.
Defined.

(** C8.  The context of no passages is the empty string, and when the
    similarity search returns no passages [get_answer] raises nothing of
    its own: it renders the prompt with the empty context, calls the model
    once with it, and its outcome is that of the model call, the cleaned
    reply when the model replies. *)
Theorem get_answer_empty_retrieval :
  _format_context [] = [] /\
  forall (db : FAISS) (chat : ChatOpenAI) (question : str) (k : option Z)
         (log : list event),
    similarity_search db question (arg_k k) = inr [] ->
    render [] question = inr (rendered [] question) /\
    get_answer (__init__ db chat) question k log
    = (match invoke chat (rendered [] question) with
       | inl e => inl e
       | inr reply => inr (_clean_response (content reply))
       end,
       log ++ [SimilaritySearch question (arg_k k);
               Invoke (rendered [] question)]).
Proof.
  split; [reflexivity|].
  intros db chat question k log Hs.
  split; [apply render_ok|].
  rewrite get_answer_run, Hs. reflexivity.
Qed.

(** An index that finds nothing, in front of the mocked model. *)
Lemma get_answer_empty_retrieval_witness :
  similarity_search empty_faiss ajax_question (arg_k None) = inr [] /\
  get_answer (__init__ empty_faiss mock_chat) ajax_question None []
  = (inr ajax_reply,
     [SimilaritySearch ajax_question 4; Invoke (rendered [] ajax_question)]).
Proof.
  split; [reflexivity|].
  apply (proj2 (proj2 get_answer_empty_retrieval empty_faiss mock_chat
                  ajax_question None [] eq_refl)).
Defined.

(** * Further properties of the code *)

(** ** The cleaner only touches white space *)

Lemma non_space_app (a b : str) :
  non_space (a ++ b) = non_space a ++ non_space b.
Proof. apply filter_app. Qed.

Lemma non_space_lstrip (s : str) : non_space (py_lstrip s) = non_space s.
Proof.
  induction s as [|c r IH]; [reflexivity|].
  simpl. destruct (py_isspace c) eqn:E; simpl; [exact IH|].
  rewrite E. reflexivity.
Qed.

Lemma non_space_rev (s : str) : non_space (rev s) = rev (non_space s).
Proof. apply filter_rev. Qed.

Lemma non_space_strip (s : str) : non_space (py_strip s) = non_space s.
Proof.
  unfold py_strip, py_rstrip.
  rewrite non_space_rev, non_space_lstrip, non_space_rev, rev_involutive.
  apply non_space_lstrip.
Qed.

Lemma split_lines_not_nil (s : str) : split_lines s <> [].
Proof.
  destruct s as [|c r]; simpl; [discriminate|].
  destruct (c =? NL); [discriminate|].
  destruct (split_lines r); discriminate.
Qed.

Lemma non_space_split_lines (s : str) :
  flat_map non_space (split_lines s) = non_space s.
Proof.
  induction s as [|c r IH]; [reflexivity|].
  cbn [split_lines]. destruct (c =? NL) eqn:E.
  - apply N.eqb_eq in E. subst c. cbn [flat_map]. rewrite IH. reflexivity.
  - destruct (split_lines r) as [|l ls] eqn:El.
    + exfalso. exact (split_lines_not_nil r El).
    + cbn [cons_head flat_map] in IH |- *.
      change (non_space (c :: l)) with (non_space ([c] ++ l)).
      change (non_space (c :: r)) with (non_space ([c] ++ r)).
      rewrite !non_space_app, <- app_assoc, IH. reflexivity.
Qed.

Lemma non_space_join (ls : list str) :
  non_space (py_join [SP] ls) = flat_map non_space ls.
Proof.
  induction ls as [|x r IH]; [reflexivity|].
  destruct r as [|y r].
  - simpl. rewrite app_nil_r. reflexivity.
  - rewrite py_join_cons2, !non_space_app, IH. reflexivity.
Qed.

Lemma non_space_clean_lines (R : str) :
  flat_map non_space (clean_lines R) = non_space R.
Proof.
  unfold clean_lines. rewrite py_split_newline.
  rewrite <- (non_space_split_lines R).
  induction (split_lines R) as [|l ls IH]; [reflexivity|].
  cbn [flat_map]. rewrite flat_map_app, IH. f_equal.
  rewrite <- (non_space_strip l).
  destruct (py_strip l); simpl; [reflexivity|].
  rewrite app_nil_r. reflexivity.
Qed.

Lemma non_space_break (s : str) :
  non_space (break_sentences s) = non_space s.
Proof.
  induction s as [| c | c d r IHr IHd] using str_ind2.
  - reflexivity.
  - reflexivity.
  - rewrite break_sentences_step.
    destruct ((c =? DOT) && (d =? SP)) eqn:E.
    + apply andb_prop in E. destruct E as [Ec Ed].
      apply N.eqb_eq in Ec, Ed. subst c d.
      change (non_space (DOT :: NL :: NL :: break_sentences r))
        with (DOT :: non_space (break_sentences r)).
      rewrite IHr. reflexivity.
    + change (non_space (c :: break_sentences (d :: r)))
        with (non_space ([c] ++ break_sentences (d :: r))).
      change (non_space (c :: d :: r)) with (non_space ([c] ++ d :: r)).
      rewrite !non_space_app, IHd. reflexivity.
Qed.

Lemma non_space_clean (R : str) :
  non_space (_clean_response R) = non_space R.
Proof.
  rewrite clean_response_joined, non_space_break.
  unfold clean_joined. rewrite non_space_join.
  apply non_space_clean_lines.
Qed.

(** X1.  The cleaner changes white space only: the characters of the
    answer that are not white space are those of the raw reply, in the
    same order, none dropped and none added. *)
Theorem clean_response_keeps_non_space (R : str) :
  non_space (_clean_response R) = non_space R.
Proof.
  unfold _clean_response.
  rewrite py_replace_period_space, non_space_break, non_space_join.
  apply non_space_clean_lines.
Qed.

Lemma non_space_nil_iff (s : str) :
  non_space s = [] <-> forallb py_isspace s = true.
Proof.
  induction s as [|c r IH]; simpl; [tauto|].
  destruct (py_isspace c); simpl; [exact IH|].
  split; discriminate.
Qed.

Lemma clean_response_no_lead (R : str) :
  no_lead_ws (_clean_response R) = true.
Proof.
  rewrite clean_response_joined, break_sentences_no_lead.
  apply clean_joined_kept.
Qed.

Lemma clean_response_no_trail (R : str) :
  no_trail_ws (_clean_response R) = true.
Proof.
  rewrite clean_response_joined. apply break_sentences_no_trail.
  apply clean_joined_kept.
Qed.

(** X2.  The answer is empty exactly when the raw reply consists of white
    space only (the empty reply included). *)
Theorem clean_response_empty_iff_blank (R : str) :
  _clean_response R = [] <-> forallb py_isspace R = true.
Proof.
  rewrite <- non_space_nil_iff, <- (non_space_clean R).
  split.
  - intros H. rewrite H. reflexivity.
  - intros H. apply no_lead_nil_blank.
    + apply clean_response_no_lead.
    + apply non_space_nil_iff, H.
Qed.

Lemma clean_response_empty_iff_blank_witness :
  forallb py_isspace (u "  " ++ [NL; 9; NL]) = true /\
  _clean_response (u "  " ++ [NL; 9; NL]) = [].
Proof.
  split; [reflexivity|].
  apply (proj2 (clean_response_empty_iff_blank (u "  " ++ [NL; 9; NL]))).
  reflexivity.
Defined.

(** ** Blank lines and single lines *)

Lemma split_lines_newline (a b : str) :
  split_lines (a ++ NL :: b) = split_lines a ++ split_lines b.
Proof.
  induction a as [|c a IH]; [reflexivity|].
  cbn [app split_lines]. rewrite IH.
  destruct (c =? NL); [reflexivity|].
  destruct (split_lines a) as [|l ls] eqn:E; [|reflexivity].
  exfalso. exact (split_lines_not_nil a E).
Qed.

Lemma clean_lines_newline (a b : str) :
  clean_lines (a ++ NL :: b) = clean_lines a ++ clean_lines b.
Proof.
  unfold clean_lines. rewrite !py_split_newline, split_lines_newline.
  apply flat_map_app.
Qed.

Lemma kept_line_non_space (t : str) : kept_line t -> non_space t <> [].
Proof.
  intros (Hne & Hl & _). destruct t as [|c r]; [contradiction|].
  simpl in Hl |- *. destruct (py_isspace c); [discriminate|].
  simpl. discriminate.
Qed.

Lemma clean_lines_blank (w : str) :
  forallb py_isspace w = true -> clean_lines w = [].
Proof.
  intros H. apply non_space_nil_iff in H.
  pose proof (non_space_clean_lines w) as Hn. rewrite H in Hn.
  pose proof (clean_lines_kept w) as Hk.
  destruct (clean_lines w) as [|t ts]; [reflexivity|].
  inversion Hk as [|? ? Ht _]; subst.
  cbn [flat_map] in Hn. apply app_eq_nil in Hn. destruct Hn as [Hn _].
  exfalso. exact (kept_line_non_space t Ht Hn).
Qed.

Lemma clean_response_of_lines (R R' : str) :
  clean_lines R = clean_lines R' -> _clean_response R = _clean_response R'.
Proof. unfold _clean_response. intros ->. reflexivity. Qed.

(** X3.  Lines of white space do not matter: a blank stretch between two
    newlines, before the first newline or behind the last one can be
    removed without changing the answer. *)
Theorem clean_response_ignores_blank_lines (a w b : str) :
  forallb py_isspace w = true ->
  _clean_response (a ++ NL :: w ++ NL :: b) = _clean_response (a ++ NL :: b) /\
  _clean_response (w ++ NL :: b) = _clean_response b /\
  _clean_response (a ++ NL :: w) = _clean_response a.
Proof.
  intros H. pose proof (clean_lines_blank w H) as Hw.
  repeat split; apply clean_response_of_lines;
    rewrite !clean_lines_newline, Hw; cbn [app];
    rewrite ?app_nil_r; reflexivity.
Qed.

Lemma clean_response_ignores_blank_lines_witness :
  forallb py_isspace (u "   ") = true /\
  _clean_response (u "a." ++ NL :: u "   " ++ NL :: u "b")
  = _clean_response (u "a." ++ NL :: u "b").
Proof.
  split; [reflexivity|].
  apply (proj1 (clean_response_ignores_blank_lines (u "a.") (u "   ") (u "b")
                  eq_refl)).
Defined.

Lemma split_lines_one (s : str) : ~ In NL s -> split_lines s = [s].
Proof.
  induction s as [|c r IH]; intros H; [reflexivity|].
  assert (Hc : c <> NL) by (intros ->; apply H; left; reflexivity).
  rewrite split_lines_cons by exact Hc.
  rewrite IH; [reflexivity|]. intros Hin. apply H. right. exact Hin.
Qed.

Lemma break_sentences_id (s : str) :
  py_in [DOT; SP] s = false -> break_sentences s = s.
Proof.
  induction s as [| c | c d r IHr IHd] using str_ind2; intros H.
  - reflexivity.
  - reflexivity.
  - rewrite break_sentences_step.
    change (py_in [DOT; SP] (c :: d :: r))
      with ((DOT =? c) && ((SP =? d) && true) || py_in [DOT; SP] (d :: r)) in H.
    apply orb_false_iff in H. destruct H as [H1 H2].
    rewrite andb_true_r, (N.eqb_sym DOT c), (N.eqb_sym SP d) in H1.
    rewrite H1, (IHd H2). reflexivity.
Qed.

Lemma clean_one_line (R : str) :
  ~ In NL R -> _clean_response R = break_sentences (py_strip R).
Proof.
  intros H. rewrite clean_response_joined. f_equal.
  unfold clean_joined, clean_lines.
  rewrite py_split_newline, (split_lines_one R H). cbn [flat_map].
  destruct (py_strip R); reflexivity.
Qed.

(** X4.  For a raw reply without newline the answer is the trimmed reply
    with its sentence breaks; when the trimmed reply has no period
    followed by a space, the answer is the trimmed reply itself. *)
Theorem clean_response_single_line (R : str) :
  ~ In NL R ->
  _clean_response R = break_sentences (py_strip R) /\
  (py_in [DOT; SP] (py_strip R) = false -> _clean_response R = py_strip R).
Proof.
  intros H. split; [apply clean_one_line, H|].
  intros Hp. rewrite (clean_one_line R H). apply break_sentences_id, Hp.
Qed.

Lemma clean_response_single_line_witness :
  ~ In NL ajax_reply /\
  py_in [DOT; SP] (py_strip ajax_reply) = false /\
  _clean_response ajax_reply = py_strip ajax_reply.
Proof.
  assert (H : ~ In NL ajax_reply).
  { simpl. intros H.
    repeat (destruct H as [H|H]; [discriminate|]). contradiction. }
  split; [exact H|]. split; [reflexivity|].
  apply (proj2 (clean_response_single_line ajax_reply H)). reflexivity.
Defined.

(** ** Cleaning stabilises after two passes *)

Lemma lstrip_suffix (s : str) : exists w, s = w ++ py_lstrip s.
Proof.
  induction s as [|c r [w Hw]]; [exists []; reflexivity|].
  simpl. destruct (py_isspace c).
  - exists (c :: w). simpl. f_equal. exact Hw.
  - exists []. reflexivity.
Qed.

Lemma rstrip_prefix (s : str) : exists w, s = py_rstrip s ++ w.
Proof.
  unfold py_rstrip. destruct (lstrip_suffix (rev s)) as [w Hw].
  exists (rev w).
  rewrite <- rev_app_distr, <- Hw. symmetry. apply rev_involutive.
Qed.

Lemma strip_infix (s : str) : exists a b, s = a ++ py_strip s ++ b.
Proof.
  unfold py_strip.
  destruct (lstrip_suffix s) as [a Ha].
  destruct (rstrip_prefix (py_lstrip s)) as [b Hb].
  exists a, b. rewrite <- Hb. exact Ha.
Qed.

Lemma split_lines_parts (s : str) :
  (exists l0 ls b, split_lines s = l0 :: ls /\ s = l0 ++ b) /\
  (forall l, In l (split_lines s) -> exists a b, s = a ++ l ++ b).
Proof.
  induction s as [|c r [(l0 & ls & b0 & Hs & Hb0) IH]].
  - split.
    + exists [], [], []. split; reflexivity.
    + intros l [H|[]]. subst l. exists [], []. reflexivity.
  - cbn [split_lines]. destruct (c =? NL).
    + split.
      * exists [], (split_lines r), (c :: r). split; reflexivity.
      * intros l [H|H].
        -- subst l. exists [], (c :: r). reflexivity.
        -- destruct (IH l H) as (a & b & Hab).
           exists (c :: a), b. simpl. f_equal. exact Hab.
    + rewrite Hs in IH |- *. cbn [cons_head]. split.
      * exists (c :: l0), ls, b0. split; [reflexivity|].
        simpl. f_equal. exact Hb0.
      * intros l [H|H].
        -- subst l. exists [], b0. simpl. f_equal. exact Hb0.
        -- destruct (IH l (or_intror H)) as (a & b & Hab).
           exists (c :: a), b. simpl. f_equal. exact Hab.
Qed.

Lemma startswith_app_l (p a b : str) :
  py_startswith p a = true -> py_startswith p (a ++ b) = true.
Proof.
  revert a. induction p as [|x p IH]; intros a H; [reflexivity|].
  destruct a as [|c a]; [discriminate|].
  simpl in H |- *. apply andb_prop in H. destruct H as [H1 H2].
  rewrite H1, (IH a H2). reflexivity.
Qed.

Lemma py_in_app_l (p a b : str) :
  py_in p a = true -> py_in p (a ++ b) = true.
Proof.
  induction a as [|c a IH]; intros H.
  - simpl in H. rewrite orb_false_r in H.
    destruct p; [|discriminate]. destruct b; reflexivity.
  - cbn [py_in] in H. apply orb_prop in H.
    change ((c :: a) ++ b) with (c :: (a ++ b)). cbn [py_in].
    destruct H as [H|H].
    + change (c :: (a ++ b)) with ((c :: a) ++ b).
      rewrite (startswith_app_l _ _ b H). reflexivity.
    + rewrite (IH H). apply orb_true_r.
Qed.

Lemma py_in_infix (p a l b : str) :
  py_in p (a ++ l ++ b) = false -> py_in p l = false.
Proof.
  intros H. destruct (py_in p l) eqn:E; [|reflexivity].
  rewrite (py_in_app_r p a _ (py_in_app_l p l b E)) in H. discriminate.
Qed.

Lemma clean_lines_strips (R t : str) :
  In t (clean_lines R) -> exists l, In l (split_lines R) /\ t = py_strip l.
Proof.
  unfold clean_lines. rewrite py_split_newline. intros H.
  apply in_flat_map in H. destruct H as (l & Hl & Ht).
  exists l. split; [exact Hl|].
  destruct (py_strip l); simpl in Ht; [contradiction|].
  destruct Ht as [Ht|[]]. symmetry. exact Ht.
Qed.

Lemma clean_lines_sentence_free (X : str) :
  py_in [DOT; SP] X = false ->
  Forall (fun t => kept_line t /\ py_in [DOT; SP] t = false) (clean_lines X).
Proof.
  intros H. apply Forall_forall. intros t Ht. split.
  - exact (proj1 (Forall_forall _ _) (clean_lines_kept X) t Ht).
  - destruct (clean_lines_strips X t Ht) as (l & Hl & ->).
    destruct (proj2 (split_lines_parts X) l Hl) as (a & b & Hab).
    destruct (strip_infix l) as (a' & b' & Hl').
    apply (py_in_infix _ a' _ b'). rewrite <- Hl'.
    apply (py_in_infix _ a _ b). rewrite <- Hab. exact H.
Qed.

Lemma break_sentences_space (K : str) :
  break_sentences (SP :: K) = SP :: break_sentences K.
Proof. destruct K; reflexivity. Qed.

(** Behind a line without sentence break the joining space stays or
    becomes a break. *)
Lemma break_after_line (t K : str) :
  t <> [] -> py_in [DOT; SP] t = false ->
  exists sep,
    (sep = [SP] \/ sep = [NL; NL]) /\
    break_sentences (t ++ SP :: K) = t ++ sep ++ break_sentences K.
Proof.
  induction t as [|c r IH]; intros Hne Hp; [contradiction|].
  destruct r as [|d r'].
  - cbn [app]. rewrite break_sentences_step.
    destruct (c =? DOT) eqn:Ec; cbn [andb].
    + apply N.eqb_eq in Ec. subst c.
      exists [NL; NL]. split; [right; reflexivity|reflexivity].
    + exists [SP]. split; [left; reflexivity|].
      rewrite break_sentences_space. reflexivity.
  - change (py_in [DOT; SP] (c :: d :: r'))
      with ((DOT =? c) && ((SP =? d) && true) || py_in [DOT; SP] (d :: r')) in Hp.
    apply orb_false_iff in Hp. destruct Hp as [H1 H2].
    rewrite andb_true_r, (N.eqb_sym DOT c), (N.eqb_sym SP d) in H1.
    destruct (IH ltac:(discriminate) H2) as (sep & Hsep & Heq).
    exists sep. split; [exact Hsep|].
    change ((c :: d :: r') ++ SP :: K) with (c :: d :: (r' ++ SP :: K)).
    rewrite break_sentences_step, H1.
    change (d :: r' ++ SP :: K) with ((d :: r') ++ SP :: K).
    rewrite Heq. reflexivity.
Qed.

Lemma split_lines_app (a s : str) :
  ~ In NL a ->
  exists l0 rest,
    split_lines s = l0 :: rest /\
    split_lines (a ++ s) = (a ++ l0) :: rest.
Proof.
  intros Ha. induction a as [|c a IH].
  - destruct (split_lines s) as [|l0 rest] eqn:E.
    + exfalso. exact (split_lines_not_nil s E).
    + exists l0, rest. split; [reflexivity|exact E].
  - assert (Hc : c <> NL) by (intros ->; apply Ha; left; reflexivity).
    destruct IH as (l0 & rest & Hs & Has).
    + intros Hin. apply Ha. right. exact Hin.
    + exists l0, rest. split; [exact Hs|].
      change ((c :: a) ++ s) with (c :: (a ++ s)).
      rewrite split_lines_cons by exact Hc. rewrite Has. reflexivity.
Qed.

Lemma no_lead_ws_app (a b : str) :
  a <> [] -> no_lead_ws (a ++ b) = no_lead_ws a.
Proof. destruct a; [contradiction|reflexivity]. Qed.

Lemma joined_lines_trimmed (ls : list str) :
  Forall (fun t => kept_line t /\ py_in [DOT; SP] t = false) ls ->
  forallb no_lead_ws (split_lines (break_sentences (py_join [SP] ls))) = true.
Proof.
  induction 1 as [|t ls [Hk Hp] Hls IH]; [reflexivity|].
  destruct Hk as (Hne & Hl & _ & Hnl).
  destruct ls as [|t' ls'].
  - cbn [py_join]. rewrite (break_sentences_id t Hp), (split_lines_one t Hnl).
    cbn [forallb]. rewrite Hl. reflexivity.
  - rewrite py_join_cons2. cbn [app].
    destruct (break_after_line t (py_join [SP] (t' :: ls')) Hne Hp)
      as (sep & [Hsep|Hsep] & Heq); rewrite Heq; subst sep.
    + rewrite app_assoc.
      destruct (split_lines_app (t ++ [SP])
                  (break_sentences (py_join [SP] (t' :: ls'))))
        as (l0 & rest & Hs & Has).
      * rewrite in_app_iff. intros [Hin|[Hin|[]]]; [tauto|discriminate].
      * rewrite Has. rewrite Hs in IH. cbn [forallb] in IH |- *.
        apply andb_prop in IH. destruct IH as [_ IH]. rewrite IH.
        rewrite <- app_assoc, (no_lead_ws_app t _ Hne), Hl. reflexivity.
    + destruct (split_lines_app t
                  ([NL; NL] ++ break_sentences (py_join [SP] (t' :: ls'))))
        as (l0 & rest & Hs & Has); [exact Hnl|].
      rewrite Has. cbn [app split_lines N.eqb] in Hs.
      change (NL =? NL) with true in Hs. cbn iota in Hs.
      injection Hs as Hl0 Hrest. subst l0 rest.
      rewrite app_nil_r.
      change (forallb no_lead_ws (t :: [] :: ?L))
        with (no_lead_ws t && (true && forallb no_lead_ws L)).
      rewrite Hl. exact IH.
Qed.

Lemma clean_twice_trimmed_lines (R : str) :
  forallb no_lead_ws
    (split_lines (_clean_response (_clean_response R))) = true.
Proof.
  rewrite (clean_response_joined (_clean_response R)).
  unfold clean_joined. apply joined_lines_trimmed.
  apply clean_lines_sentence_free.
  rewrite clean_response_joined. apply break_sentences_no_period_space.
Qed.

Lemma clean_fixed_of_trimmed_lines (R : str) :
  forallb no_lead_ws (split_lines (_clean_response R)) = true ->
  _clean_response (_clean_response R) = _clean_response R.
Proof.
  intros H.
  rewrite (clean_response_spec (_clean_response R)).
  rewrite clean_response_joined in H |- *.
  destruct (clean_joined_kept R) as (Hl & Ht & Hnl).
  apply clean_spec_break; assumption.
Qed.

(** X5.  Cleaning stabilises after two passes: the cleaned form of a
    cleaned text is a fixed point of the cleaner, for every raw text. *)
Theorem clean_response_stable_after_two (R : str) :
  _clean_response (_clean_response (_clean_response R))
  = _clean_response (_clean_response R).
Proof.
  apply clean_fixed_of_trimmed_lines, clean_twice_trimmed_lines.
Qed.

(** ** The context formatter: growth, content and limits *)

Lemma enumerate_from_app {A : Type} (k : nat) (P Q : list A) :
  enumerate_from k (P ++ Q)
  = enumerate_from k P ++ enumerate_from (k + List.length P) Q.
Proof.
  revert k. induction P as [|x P IH]; intros k.
  - simpl. rewrite Nat.add_0_r. reflexivity.
  - cbn [app enumerate_from List.length]. rewrite IH.
    rewrite Nat.add_succ_r. reflexivity.
Qed.

Lemma py_join_app (sep : str) (l1 l2 : list str) :
  py_join sep (l1 ++ l2)
  = py_join sep l1
    ++ match l1, l2 with
       | _ :: _, _ :: _ => sep
       | _, _ => []
       end
    ++ py_join sep l2.
Proof.
  induction l1 as [|x l1 IH]; [destruct l2; reflexivity|].
  destruct l1 as [|y l1].
  - destruct l2 as [|z l2].
    + simpl. rewrite app_nil_r. reflexivity.
    + reflexivity.
  - change ((x :: y :: l1) ++ l2) with (x :: y :: (l1 ++ l2)).
    rewrite !py_join_cons2.
    change (y :: (l1 ++ l2)) with ((y :: l1) ++ l2). rewrite IH.
    destruct l2; rewrite <- !app_assoc; reflexivity.
Qed.

Lemma format_from_app (k : nat) (P Q : list Document) :
  format_from k (P ++ Q)
  = format_from k P
    ++ match P, Q with
       | _ :: _, _ :: _ => [NL; NL]
       | _, _ => []
       end
    ++ format_from (k + List.length P) Q.
Proof.
  unfold format_from.
  rewrite enumerate_from_app, map_app, py_join_app.
  destruct P, Q; reflexivity.
Qed.

(** X6.  Retrieving more passages only extends the context: the context
    of [P] is a prefix of the context of [P ++ Q], so the numbers of the
    earlier entries do not change; one more passage [d] adds, behind a
    blank line when [P] is not empty, the entry numbered [len(P) + 1]. *)
Theorem format_context_grows (P : list Document) :
  (forall Q, exists rest,
     _format_context (P ++ Q) = _format_context P ++ rest) /\
  (forall d,
     _format_context (P ++ [d])
     = _format_context P
       ++ match P with [] => [] | _ :: _ => [NL; NL] end
       ++ SOURCE_ ++ py_str_nat (List.length P + 1) ++ COLON_NL
       ++ page_content d).
Proof.
  change _format_context with (format_from 0). split.
  - intros Q. rewrite format_from_app. eexists. reflexivity.
  - intros d. rewrite format_from_app. destruct P; reflexivity.
Qed.

Lemma format_from_contains (k : nat) (P : list Document) (d : Document) :
  In d P -> py_in (page_content d) (format_from k P) = true.
Proof.
  revert k. induction P as [|x r IH]; intros k H; [contradiction|].
  rewrite format_from_cons. destruct H as [H|H].
  - subst x. do 3 apply py_in_app_r. apply py_in_here.
  - do 4 apply py_in_app_r. destruct r as [|y r]; [contradiction|].
    cbn [sep_tail]. apply (py_in_app_r _ [NL; NL]). apply IH, H.
Qed.

(** X7.  The content of every passage occurs whole in the context. *)
Theorem format_context_contains_contents (P : list Document) (d : Document) :
  In d P -> py_in (page_content d) (_format_context P) = true.
Proof.
  change _format_context with (format_from 0). generalize 0%nat.
  induction P as [|x r IH]; intros k H; [contradiction|].
  rewrite format_from_cons. destruct H as [H|H].
  - subst x. do 3 apply py_in_app_r. apply py_in_here.
  - do 4 apply py_in_app_r. destruct r as [|y r]; [contradiction|].
    cbn [sep_tail]. apply (py_in_app_r _ [NL; NL]). apply IH, H.
Qed.

Lemma format_context_contains_contents_witness :
  In (mkDocument (u "Test content 2") []) test_docs /\
  py_in (u "Test content 2") (_format_context test_docs) = true.
Proof.
  assert (H : In (mkDocument (u "Test content 2") []) test_docs)
    by (right; left; reflexivity).
  split; [exact H|].
  apply (format_context_contains_contents test_docs _ H).
Defined.

(** X8.  A context is empty only for no passages: the context of a
    non-empty sequence starts with the label ["Source 1:"] and a
    newline. *)
Theorem format_context_first_label (P : list Document) :
  (_format_context P = [] <-> P = []) /\
  (forall x r, P = x :: r ->
     py_startswith FIRST_LABEL (_format_context P) = true).
Proof.
  change _format_context with (format_from 0). split.
  - split.
    + destruct P as [|x r]; [reflexivity|].
      rewrite format_from_cons. discriminate.
    + intros ->. reflexivity.
  - intros x r ->. rewrite format_from_cons. reflexivity.
Qed.

Lemma format_context_first_label_witness :
  py_startswith FIRST_LABEL (_format_context [ajax_passage]) = true.
Proof.
  apply (proj2 (format_context_first_label [ajax_passage]) ajax_passage []).
  reflexivity.
Defined.

(** X9.  The context depends on the contents of the passages only: two
    sequences with the same contents in the same order, whatever their
    metadata, give the same context. *)
Theorem format_context_ignores_metadata (P Q : list Document) :
  map page_content P = map page_content Q ->
  _format_context P = _format_context Q.
Proof.
  intros H. unfold _format_context, enumerate. f_equal.
  assert (G : forall k,
            map (fun '(i, doc) =>
                   SOURCE_ ++ py_str_nat (i + 1) ++ COLON_NL
                   ++ page_content doc) (enumerate_from k P)
            = map (fun '(i, doc) =>
                     SOURCE_ ++ py_str_nat (i + 1) ++ COLON_NL
                     ++ page_content doc) (enumerate_from k Q)).
  { revert Q H.
    induction P as [|x P IH]; intros [|y Q] H k; try discriminate;
      [reflexivity|].
    cbn [map] in H. injection H as Hxy HPQ.
    cbn [enumerate_from map]. rewrite Hxy, (IH Q HPQ (S k)). reflexivity. }
  apply G.
Qed.

Lemma format_context_ignores_metadata_witness :
  _format_context [mkDocument (u "Test content 1") [(u "source", u "video")]]
  = _format_context [mkDocument (u "Test content 1") []].
Proof.
  apply format_context_ignores_metadata. reflexivity.
Defined.

(** X10.  Contents are not escaped, so the context does not determine
    the passages: one passage whose content holds a blank line and the
    label ["Source 2:"] gives the very context of two passages. *)
Theorem format_context_label_forgery (a b : str) (m m1 m2 : list (str * str)) :
  _format_context [mkDocument (a ++ SECOND_ENTRY ++ b) m]
  = _format_context [mkDocument a m1; mkDocument b m2].
Proof.
  change _format_context with (format_from 0).
  rewrite !format_from_cons. cbn [sep_tail page_content].
  rewrite format_from_cons. cbn [sep_tail page_content].
  rewrite ?app_nil_r, <- ?app_assoc. reflexivity.
Qed.

(** ** The pipeline seen from its caller *)

Lemma get_football_answer_run (db : FAISS) (chat : ChatOpenAI)
    (question : str) (k : option Z) (log : list event) :
  get_football_answer db chat question k log
  = match similarity_search db question (arg_k k) with
    | inl e => (inl e, log ++ [SimilaritySearch question (arg_k k)])
    | inr docs =>
      (match invoke chat (rendered (_format_context docs) question) with
       | inl e => inl e
       | inr reply => inr (_clean_response (content reply))
       end,
       log ++ [SimilaritySearch question (arg_k k);
               Invoke (rendered (_format_context docs) question)])
    end.
Proof. unfold get_football_answer. apply get_answer_run. Qed.

Lemma rendered_contains_context (w c q : str) :
  py_in w c = true -> py_in w (rendered c q) = true.
Proof.
  intros H. unfold rendered. apply py_in_app_r, py_in_app_l, H.
Qed.

Lemma rendered_contains_question (c q : str) :
  py_in q (rendered c q) = true.
Proof.
  unfold rendered. do 3 apply py_in_app_r. apply py_in_here.
Qed.

(** X11.  When the similarity search returns passages, the prompt that
    [get_football_answer] sends to the model holds the question and the
    content of every retrieved passage, each whole. *)
Theorem get_football_answer_prompt_grounded
    (db : FAISS) (chat : ChatOpenAI) (question : str) (k : option Z)
    (docs : list Document) (log : list event) :
  similarity_search db question (arg_k k) = inr docs ->
  exists prompt,
    In (Invoke prompt) (snd (get_football_answer db chat question k log)) /\
    py_in question prompt = true /\
    forall d, In d docs -> py_in (page_content d) prompt = true.
Proof.
  intros Hs. exists (rendered (_format_context docs) question).
  rewrite get_football_answer_run, Hs. cbn [snd]. repeat split.
  - apply in_or_app. right. right. left. reflexivity.
  - apply rendered_contains_question.
  - intros d Hd. apply rendered_contains_context.
    apply (format_from_contains 0 docs d Hd).
Qed.

Lemma get_football_answer_prompt_grounded_witness :
  similarity_search mock_faiss ajax_question (arg_k None) = inr [ajax_passage] /\
  exists prompt,
    In (Invoke prompt)
       (snd (get_football_answer mock_faiss mock_chat ajax_question None [])) /\
    py_in ajax_question prompt = true /\
    forall d, In d [ajax_passage] -> py_in (page_content d) prompt = true.
Proof.
  split; [reflexivity|].
  apply (get_football_answer_prompt_grounded mock_faiss mock_chat
           ajax_question None [ajax_passage] []).
  reflexivity.
Defined.

(** X12.  Every answer [get_football_answer] returns is a cleaned model
    reply: it has no period followed by a space, no leading and no
    trailing white space, and trimming leaves it unchanged. *)
Theorem get_football_answer_returns_clean
    (db : FAISS) (chat : ChatOpenAI) (question : str) (k : option Z)
    (log : list event) (answer : str) :
  fst (get_football_answer db chat question k log) = inr answer ->
  (exists reply, answer = _clean_response (content reply)) /\
  py_in [DOT; SP] answer = false /\
  no_lead_ws answer = true /\
  no_trail_ws answer = true /\
  py_strip answer = answer.
Proof.
  rewrite get_football_answer_run.
  destruct (similarity_search db question (arg_k k)) as [e|docs];
    [discriminate|].
  destruct (invoke chat (rendered (_format_context docs) question))
    as [e|reply]; [discriminate|].
  cbn [fst]. intros H. injection H as <-.
  split; [exists reply; reflexivity|].
  split; [rewrite clean_response_joined;
          apply break_sentences_no_period_space|].
  pose proof (clean_response_no_lead (content reply)) as Hl.
  pose proof (clean_response_no_trail (content reply)) as Ht.
  repeat split; try assumption. apply strip_id; assumption.
Qed.

Lemma get_football_answer_returns_clean_witness :
  fst (get_football_answer mock_faiss mock_chat ajax_question None [])
  = inr ajax_reply /\
  py_in [DOT; SP] ajax_reply = false /\
  py_strip ajax_reply = ajax_reply.
Proof.
  split; [reflexivity|].
  destruct (get_football_answer_returns_clean mock_faiss mock_chat
              ajax_question None [] ajax_reply eq_refl)
    as (_ & Hp & _ & _ & Hs).
  split; [exact Hp|exact Hs].
Defined.


(** ** Phrases of the reply that survive the cleaning *)

Lemma startswith_split (w s : str) :
  py_startswith w s = true -> exists b, s = w ++ b.
Proof.
  revert s. induction w as [|x w IH]; intros s H.
  - exists s. reflexivity.
  - destruct s as [|c s]; [discriminate|].
    simpl in H. apply andb_prop in H. destruct H as [H1 H2].
    apply N.eqb_eq in H1. subst c.
    destruct (IH s H2) as [b Hb]. exists b. simpl. f_equal. exact Hb.
Qed.

Lemma py_in_split (w s : str) :
  py_in w s = true -> exists a b, s = a ++ w ++ b.
Proof.
  induction s as [|c s IH]; intros H.
  - simpl in H. rewrite orb_false_r in H.
    destruct (startswith_split w [] H) as [b Hb]. exists [], b. exact Hb.
  - cbn [py_in] in H. apply orb_prop in H. destruct H as [H|H].
    + destruct (startswith_split w _ H) as [b Hb]. exists [], b. exact Hb.
    + destruct (IH H) as (a & b & Hab).
      exists (c :: a), b. simpl. f_equal. exact Hab.
Qed.

Lemma py_in_middle (w a b : str) : py_in w (a ++ w ++ b) = true.
Proof. apply py_in_app_r, py_in_here. Qed.

Lemma phrase_in_line (w a b : str) :
  ~ In NL w ->
  exists l, In l (split_lines (a ++ w ++ b)) /\ py_in w l = true.
Proof.
  intros Hw. induction a as [|c a (l & Hl & Hin)].
  - destruct (split_lines_app w b Hw) as (l0 & rest & _ & Hs).
    exists (w ++ l0). cbn [app]. rewrite Hs.
    split; [left; reflexivity|apply py_in_here].
  - change ((c :: a) ++ w ++ b) with (c :: (a ++ w ++ b)).
    cbn [split_lines]. destruct (c =? NL).
    + exists l. split; [right; exact Hl|exact Hin].
    + destruct (split_lines (a ++ w ++ b)) as [|l1 ls];
        [contradiction|].
      cbn [cons_head]. destruct Hl as [Hl|Hl].
      * subst l1. exists (c :: l).
        split; [left; reflexivity|apply (py_in_app_r w [c]), Hin].
      * exists l. split; [right; exact Hl|exact Hin].
Qed.

Lemma lstrip_keeps (a : str) (c : char) (rest : str) :
  py_isspace c = false ->
  exists a', py_lstrip (a ++ c :: rest) = a' ++ c :: rest.
Proof.
  intros Hc. induction a as [|x a IH]; simpl.
  - rewrite Hc. exists []. reflexivity.
  - destruct (py_isspace x); [exact IH|].
    exists (x :: a). reflexivity.
Qed.

Lemma lstrip_keeps_phrase (w a b : str) :
  w <> [] -> no_lead_ws w = true ->
  exists a', py_lstrip (a ++ w ++ b) = a' ++ w ++ b.
Proof.
  intros Hne Hl. destruct w as [|c w]; [contradiction|].
  simpl in Hl. apply negb_true_iff in Hl.
  apply (lstrip_keeps a c (w ++ b) Hl).
Qed.

Lemma rev_not_nil (w : str) : w <> [] -> rev w <> [].
Proof.
  intros H E. apply H.
  rewrite <- (rev_involutive w), E. reflexivity.
Qed.

Lemma strip_keeps_phrase (w l : str) :
  w <> [] -> no_lead_ws w = true -> no_trail_ws w = true ->
  py_in w l = true -> py_in w (py_strip l) = true.
Proof.
  intros Hne Hl Ht Hin.
  destruct (py_in_split w l Hin) as (a & b & ->).
  unfold py_strip, py_rstrip.
  destruct (lstrip_keeps_phrase w a b Hne Hl) as [a' ->].
  rewrite !rev_app_distr, <- app_assoc.
  destruct (lstrip_keeps_phrase (rev w) (rev b) (rev a')
              (rev_not_nil w Hne) Ht) as [b' ->].
  rewrite !rev_app_distr, !rev_involutive, <- app_assoc.
  apply py_in_middle.
Qed.

Lemma py_in_nil (w : str) : w <> [] -> py_in w [] = false.
Proof. destruct w; [contradiction|reflexivity]. Qed.

Lemma join_keeps_phrase (w t : str) (ls : list str) :
  In t ls -> py_in w t = true -> py_in w (py_join [SP] ls) = true.
Proof.
  intros Ht Hw. induction ls as [|x r IH]; [contradiction|].
  destruct r as [|y r].
  - destruct Ht as [->|[]]. exact Hw.
  - rewrite py_join_cons2. destruct Ht as [->|Ht].
    + apply py_in_app_l, Hw.
    + apply py_in_app_r, (py_in_app_r w [SP]), IH, Ht.
Qed.

Lemma break_sentences_app (a : str) (c : char) (y : str) :
  c <> SP ->
  break_sentences (a ++ c :: y) = break_sentences a ++ break_sentences (c :: y).
Proof.
  intros Hc. induction a as [| x | x d r IHr IHd] using str_ind2.
  - reflexivity.
  - cbn [app]. rewrite break_sentences_step.
    apply N.eqb_neq in Hc. rewrite Hc, andb_false_r. reflexivity.
  - change ((x :: d :: r) ++ c :: y) with (x :: d :: (r ++ c :: y)).
    rewrite !break_sentences_step.
    destruct ((x =? DOT) && (d =? SP)).
    + rewrite IHr. reflexivity.
    + change (d :: r ++ c :: y) with ((d :: r) ++ c :: y).
      rewrite IHd. reflexivity.
Qed.

Lemma break_sentences_keeps_prefix (w b : str) :
  w <> [] -> py_in [DOT; SP] w = false ->
  exists rest, break_sentences (w ++ b) = w ++ rest.
Proof.
  induction w as [|c r IH]; intros Hne Hp; [contradiction|].
  destruct r as [|d r'].
  - destruct (break_sentences_cons c b) as [t Ht].
    exists t. exact Ht.
  - change (py_in [DOT; SP] (c :: d :: r'))
      with ((DOT =? c) && ((SP =? d) && true) || py_in [DOT; SP] (d :: r')) in Hp.
    apply orb_false_iff in Hp. destruct Hp as [H1 H2].
    rewrite andb_true_r, (N.eqb_sym DOT c), (N.eqb_sym SP d) in H1.
    destruct (IH ltac:(discriminate) H2) as [rest Hrest].
    exists rest.
    change ((c :: d :: r') ++ b) with (c :: d :: (r' ++ b)).
    rewrite break_sentences_step, H1.
    change (d :: r' ++ b) with ((d :: r') ++ b).
    rewrite Hrest. reflexivity.
Qed.

Lemma break_sentences_keeps_phrase (w s : str) :
  w <> [] -> no_lead_ws w = true -> py_in [DOT; SP] w = false ->
  py_in w s = true -> py_in w (break_sentences s) = true.
Proof.
  intros Hne Hl Hp Hin.
  destruct (py_in_split w s Hin) as (a & b & ->).
  destruct (break_sentences_keeps_prefix w b Hne Hp) as [rest Hrest].
  destruct w as [|c w]; [contradiction|].
  assert (Hc : c <> SP).
  { intros ->. discriminate Hl. }
  change ((c :: w) ++ b) with (c :: (w ++ b)) in *.
  rewrite (break_sentences_app a c (w ++ b) Hc), Hrest.
  apply py_in_middle.
Qed.

(** X14.  A phrase of the raw reply that lies on one line, starts and
    ends with characters that are not white space and has no period
    followed by a space occurs unchanged in the answer. *)
Theorem clean_response_keeps_phrase (w R : str) :
  w <> [] -> ~ In NL w ->
  no_lead_ws w = true -> no_trail_ws w = true ->
  py_in [DOT; SP] w = false ->
  py_in w R = true -> py_in w (_clean_response R) = true.
Proof.
  intros Hne Hnl Hl Ht Hp Hin.
  destruct (py_in_split w R Hin) as (a & b & ->).
  destruct (phrase_in_line w a b Hnl) as (l & Hline & Hwl).
  pose proof (strip_keeps_phrase w l Hne Hl Ht Hwl) as Hs.
  rewrite clean_response_joined.
  apply break_sentences_keeps_phrase; try assumption.
  unfold clean_joined. apply (join_keeps_phrase w (py_strip l)); [|exact Hs].
  unfold clean_lines. rewrite py_split_newline.
  apply in_flat_map. exists l. split; [exact Hline|].
  destruct (py_strip l) eqn:E.
  - rewrite (py_in_nil w Hne) in Hs. discriminate.
  - left. reflexivity.
Qed.

Lemma clean_response_keeps_phrase_witness :
  py_in fallback_phrase fallback_reply = true /\
  py_in fallback_phrase (_clean_response fallback_reply) = true.
Proof.
  split; [reflexivity|].
  apply (clean_response_keeps_phrase fallback_phrase fallback_reply).
  - discriminate.
  - simpl. intros H.
    repeat (destruct H as [H|H]; [discriminate|]). contradiction.
  - reflexivity.
  - reflexivity.
  - reflexivity.
  - reflexivity.
Defined.

(** ** The ingestion batch job *)

Lemma load_video_run (w : Services) (self : YouTubeProcessor) (url : str)
    (log : list ingest_event) :
  _load_video_transcript w self url log
  = (inr match youtube_load w url with
         | inr docs => Some docs
         | inl _ => None
         end,
     log ++ load_log w [url]).
Proof.
  unfold _load_video_transcript, try_except, ebind, ecall, emit, eret,
    load_log.
  cbn [flat_map]. rewrite app_nil_r.
  destruct (youtube_load w url) as [e|docs].
  - rewrite <- app_assoc. reflexivity.
  - reflexivity.
Qed.

Lemma load_log_cons (w : Services) (url : str) (rest : list str) :
  load_log w (url :: rest) = load_log w [url] ++ load_log w rest.
Proof. unfold load_log. cbn [flat_map]. rewrite app_nil_r. reflexivity. Qed.

Lemma load_all_run (w : Services) (self : YouTubeProcessor)
    (video_urls : list str) (acc : list Document) (log : list ingest_event) :
  load_all w self video_urls acc log
  = (inr (acc ++ transcripts_of w video_urls), log ++ load_log w video_urls).
Proof.
  revert acc log. induction video_urls as [|url rest IH]; intros acc log.
  - simpl. unfold eret. rewrite !app_nil_r. reflexivity.
  - cbn [load_all]. unfold ebind at 1. rewrite load_video_run, IH.
    rewrite (load_log_cons w url rest), <- app_assoc.
    unfold transcripts_of. cbn [flat_map].
    destruct (youtube_load w url) as [e|[|d ds]]; cbn [documents_truthy].
    + reflexivity.
    + reflexivity.
    + rewrite <- app_assoc. reflexivity.
Qed.

Lemma process_videos_run (w : Services) (self : YouTubeProcessor)
    (video_urls : list str) (log : list ingest_event) :
  process_videos w self video_urls log
  = match transcripts_of w video_urls with
    | [] => (inl (ValueError NO_TRANSCRIPTS), log ++ load_log w video_urls)
    | _ :: _ =>
      let chunks := split_documents w 1000 100 (transcripts_of w video_urls) in
      match from_documents w chunks (embeddings self) with
      | inl e =>
        (inl e, log ++ load_log w video_urls ++ [FromDocuments chunks])
      | inr db =>
        match save_local w db (output_dir self) with
        | inl e =>
          (inl e,
           log ++ load_log w video_urls
           ++ [FromDocuments chunks; SaveLocal db (output_dir self)])
        | inr _ =>
          (inr tt,
           log ++ load_log w video_urls
           ++ [FromDocuments chunks; SaveLocal db (output_dir self);
               Print (DATABASE_SAVED_TO ++ output_dir self)])
        end
      end
    end.
Proof.
  unfold process_videos. unfold ebind at 1. rewrite load_all_run.
  cbn [app]. destruct (transcripts_of w video_urls) as [|d ds];
    [reflexivity|].
  unfold _split_transcripts, ebind, ecall, emit, eret. cbn zeta.
  destruct (from_documents w _ (embeddings self)) as [e|db].
  - rewrite <- app_assoc. reflexivity.
  - destruct (save_local w db (output_dir self)) as [e|[]];
      rewrite <- !app_assoc; reflexivity.
Qed.



Lemma builds_of_app (a b : list ingest_event) :
  builds_of (a ++ b) = builds_of a ++ builds_of b.
Proof. apply filter_app. Qed.

Lemma builds_of_load_log (w : Services) (video_urls : list str) :
  builds_of (load_log w video_urls) = [].
Proof.
  induction video_urls as [|url rest IH]; [reflexivity|].
  rewrite load_log_cons, builds_of_app, IH.
  unfold load_log. cbn [flat_map]. rewrite app_nil_r.
  destruct (youtube_load w url); reflexivity.
Qed.




Lemma transcripts_of_nil (w : Services) (video_urls : list str) :
  (forall url, In url video_urls ->
     youtube_load w url = inr [] \/ exists e, youtube_load w url = inl e) ->
  transcripts_of w video_urls = [].
Proof.
  induction video_urls as [|url rest IH]; intros H; [reflexivity|].
  unfold transcripts_of. cbn [flat_map].
  fold (transcripts_of w rest). rewrite IH.
  - destruct (H url (or_introl eq_refl)) as [E|[e E]]; rewrite E;
      reflexivity.
  - intros url' Hin. apply H. right. exact Hin.
Qed.

(** X17.  When every video fails to load or has an empty transcript (no
    URL at all included), [process_videos] raises the [ValueError] of no
    transcripts, and no index is built or saved. *)
Theorem process_videos_no_transcripts (w : Services)
    (self : YouTubeProcessor) (video_urls : list str)
    (log : list ingest_event) :
  (forall url, In url video_urls ->
     youtube_load w url = inr [] \/ exists e, youtube_load w url = inl e) ->
  fst (process_videos w self video_urls log)
  = inl (ValueError NO_TRANSCRIPTS) /\
  builds_of (snd (process_videos w self video_urls log)) = builds_of log.
Proof.
  intros H. rewrite process_videos_run, (transcripts_of_nil w video_urls H).
  split; [reflexivity|]. cbn [snd].
  rewrite builds_of_app, builds_of_load_log. apply app_nil_r.
Qed.

Lemma process_videos_no_transcripts_witness :
  fst (process_videos (test_services (fun _ => inl video_unavailable))
         test_processor [test_url] [])
  = inl (ValueError NO_TRANSCRIPTS) /\
  builds_of (snd (process_videos
                    (test_services (fun _ => inl video_unavailable))
                    test_processor [test_url] []))
  = builds_of [].
Proof.
  apply (process_videos_no_transcripts
           (test_services (fun _ => inl video_unavailable))
           test_processor [test_url] []).
  intros url _. right. exists video_unavailable. reflexivity.
Defined.

Lemma transcripts_of_not_nil (w : Services) (video_urls : list str)
    (url : str) (d : Document) (ds : list Document) :
  In url video_urls -> youtube_load w url = inr (d :: ds) ->
  transcripts_of w video_urls <> [].
Proof.
  intros Hin Hl. unfold transcripts_of.
  induction video_urls as [|x rest IH]; [contradiction|].
  cbn [flat_map]. destruct Hin as [->|Hin].
  - rewrite Hl. discriminate.
  - intros E. apply app_eq_nil in E. destruct E as [_ E].
    exact (IH Hin E).
Qed.

(** X18.  When at least one video has a transcript, the index is built
    exactly once, from the chunks (size 1000, overlap 100) of the
    transcripts of the videos that loaded, in the order of the URLs; when
    the build and the save succeed, the built index is saved once to the
    output directory and [process_videos] returns. *)
Theorem process_videos_builds_index (w : Services) (self : YouTubeProcessor)
    (video_urls : list str) (log : list ingest_event)
    (url : str) (d : Document) (ds : list Document) :
  In url video_urls -> youtube_load w url = inr (d :: ds) ->
  let chunks := split_documents w 1000 100 (transcripts_of w video_urls) in
  (forall e, from_documents w chunks (embeddings self) = inl e ->
     fst (process_videos w self video_urls log) = inl e /\
     builds_of (snd (process_videos w self video_urls log))
     = builds_of log ++ [FromDocuments chunks]) /\
  (forall db, from_documents w chunks (embeddings self) = inr db ->
     builds_of (snd (process_videos w self video_urls log))
     = builds_of log ++ [FromDocuments chunks; SaveLocal db (output_dir self)] /\
     fst (process_videos w self video_urls log)
     = match save_local w db (output_dir self) with
       | inl e => inl e
       | inr _ => inr tt
       end).
Proof.
  intros Hin Hl chunks.
  pose proof (transcripts_of_not_nil w video_urls url d ds Hin Hl) as Hne.
  rewrite process_videos_run.
  destruct (transcripts_of w video_urls) as [|t ts] eqn:Et;
    [contradiction|].
  cbn zeta. fold chunks. split.
  - intros e He. rewrite He. cbn [fst snd]. split; [reflexivity|].
    rewrite !builds_of_app, builds_of_load_log. reflexivity.
  - intros db Hdb. rewrite Hdb.
    destruct (save_local w db (output_dir self)) as [e|u0]; cbn [fst snd];
      (split; [|reflexivity]);
      rewrite !builds_of_app, builds_of_load_log; reflexivity.
Qed.

Lemma process_videos_builds_index_witness :
  builds_of (snd (process_videos
                    (test_services (fun _ => inr [mkDocument (u "Test content") []]))
                    test_processor [test_url; test_url] []))
  = [FromDocuments [mkDocument (u "Test content") [];
                    mkDocument (u "Test content") []];
     SaveLocal mock_faiss (u "test_output")] /\
  fst (process_videos
         (test_services (fun _ => inr [mkDocument (u "Test content") []]))
         test_processor [test_url; test_url] [])
  = inr tt.
Proof.
  exact (proj2 (process_videos_builds_index
                  (test_services (fun _ => inr [mkDocument (u "Test content") []]))
                  test_processor [test_url; test_url] []
                  test_url (mkDocument (u "Test content") []) []
                  (or_introl eq_refl) eq_refl)
               mock_faiss eq_refl).
Defined.

(** X19.  [process_youtube_videos] creates the embedding client and the
    output directory (["faiss_db"] when none is given) before it loads
    anything: when either raises, that exception is raised and no
    transcript is loaded. *)
Theorem process_youtube_videos_setup_first (w : Services)
    (video_urls : list str) (output_dir : option str)
    (log : list ingest_event) :
  arg_output_dir None = FAISS_DB /\
  (forall e, new_embeddings w = inl e ->
     process_youtube_videos w video_urls output_dir log
     = (inl e, log ++ [NewEmbeddings])) /\
  (forall emb e, new_embeddings w = inr emb ->
     makedirs w (arg_output_dir output_dir) = inl e ->
     process_youtube_videos w video_urls output_dir log
     = (inl e, log ++ [NewEmbeddings; MakeDirs (arg_output_dir output_dir)])) /\
  (forall emb, new_embeddings w = inr emb ->
     makedirs w (arg_output_dir output_dir) = inr tt ->
     process_youtube_videos w video_urls output_dir log
     = process_videos w (mkYouTubeProcessor (arg_output_dir output_dir) emb)
         video_urls
         (log ++ [NewEmbeddings; MakeDirs (arg_output_dir output_dir)])).
Proof.
  unfold process_youtube_videos, YouTubeProcessor__init__, ebind, ecall, eret.
  split; [reflexivity|]. repeat split.
  - intros e ->. reflexivity.
  - intros emb e -> ->. rewrite <- app_assoc. reflexivity.
  - intros emb -> ->. rewrite <- app_assoc. reflexivity.
Qed.

Lemma process_youtube_videos_setup_first_witness :
  process_youtube_videos
    {| new_embeddings := inl store_down;
       makedirs := fun _ => inr tt;
       youtube_load := fun _ => inr [];
       split_documents := fun _ _ docs => docs;
       from_documents := fun _ _ => inr mock_faiss;
       save_local := fun _ _ => inr tt |}
    [test_url] None []
  = (inl store_down, [NewEmbeddings]).
Proof.
  apply (proj1 (proj2 (process_youtube_videos_setup_first _ [test_url] None [])
                  )).
  reflexivity.
Defined.

(** ** The web front end *)

Lemma str_eqb_refl (a : str) : str_eqb a a = true.
Proof.
  induction a as [|c a IH]; [reflexivity|].
  simpl. rewrite N.eqb_refl. exact IH.
Qed.

Lemma str_eqb_eq (a b : str) : str_eqb a b = true -> a = b.
Proof.
  revert b. induction a as [|c a IH]; intros [|d b] H; try discriminate;
    [reflexivity|].
  simpl in H. apply andb_prop in H. destruct H as [H1 H2].
  apply N.eqb_eq in H1. subst d. rewrite (IH b H2). reflexivity.
Qed.

Lemma str_eqb_neq (a b : str) : a <> b -> str_eqb a b = false.
Proof.
  intros H. destruct (str_eqb a b) eqn:E; [|reflexivity].
  exfalso. exact (H (str_eqb_eq a b E)).
Qed.

Lemma ss_get_set_same (name : str) (v : pyval) (ss : SessionState) :
  ss_get name (ss_set name v ss) = Some v.
Proof.
  induction ss as [|[key x] rest IH]; simpl.
  - rewrite str_eqb_refl. reflexivity.
  - destruct (str_eqb key name) eqn:E; simpl; rewrite E; [reflexivity|exact IH].
Qed.

Lemma ss_get_set_other (name other : str) (v : pyval) (ss : SessionState) :
  name <> other -> ss_get other (ss_set name v ss) = ss_get other ss.
Proof.
  intros H. induction ss as [|[key x] rest IH]; simpl.
  - rewrite (str_eqb_neq name other H). reflexivity.
  - destruct (str_eqb key name) eqn:E; simpl.
    + apply str_eqb_eq in E. subst key.
      rewrite (str_eqb_neq name other H). reflexivity.
    + rewrite IH. reflexivity.
Qed.

Lemma response_not_is_loading : RESPONSE <> IS_LOADING.
Proof. discriminate. Qed.

Lemma process_question_run (env : Browser) (question : str) (st : AppState) :
  process_question env question st
  = (inl RerunException,
     {| session_state :=
          ss_set IS_LOADING (VBool false)
            (ss_set RESPONSE (VStr (fst (question_outcome env question)))
               (session_state st));
        events := events st ++ snd (question_outcome env question) |}).
Proof.
  unfold process_question, question_outcome, app_try_finally, app_try_except,
    abind, app_call, run_pipeline, set_attr, st_do, st_rerun.
  cbn [session_state events].
  destruct (app_new_embeddings env) as [e|emb].
  - cbn [fst snd session_state events]. rewrite <- app_assoc. reflexivity.
  - destruct (load_local env (db_path env) emb) as [e|db].
    + cbn [fst snd session_state events]. rewrite <- !app_assoc. reflexivity.
    + destruct (get_football_answer db (chat_model env) question None [])
        as [[e|answer] calls];
        cbn [fst snd session_state events]; rewrite <- !app_assoc;
        reflexivity.
Qed.


(** X21.  When creating the embedding client, loading the index or the
    answer pipeline raises, [process_question] stores the fixed apology as
    the response and shows an error that ends with the message of the
    exception. *)
Theorem process_question_reports_failure (env : Browser) (question : str)
    (st : AppState) (e : exn) :
  app_new_embeddings env = inl e \/
  (exists emb, app_new_embeddings env = inr emb /\
     (load_local env (db_path env) emb = inl e \/
      exists db, load_local env (db_path env) emb = inr db /\
        fst (get_football_answer db (chat_model env) question None [])
        = inl e)) ->
  ss_get RESPONSE (session_state (snd (process_question env question st)))
  = Some (VStr SORRY) /\
  In (StError (ERROR_PROCESSING_QUESTION ++ exn_str e))
     (events (snd (process_question env question st))).
Proof.
  intros H. rewrite process_question_run. cbn [snd session_state events].
  rewrite ss_get_set_other by (apply not_eq_sym, response_not_is_loading).
  rewrite ss_get_set_same. unfold question_outcome.
  destruct H as [H|(emb & Hemb & [H|(db & Hdb & H)])].
  - rewrite H. cbn [fst snd]. split; [reflexivity|].
    apply in_or_app. right. right. left. reflexivity.
  - rewrite Hemb, H. cbn [fst snd]. split; [reflexivity|].
    apply in_or_app. right. right. right. left. reflexivity.
  - rewrite Hemb, Hdb.
    destruct (get_football_answer db (chat_model env) question None [])
      as [[e'|answer] calls]; cbn [fst] in H; [|discriminate].
    injection H as ->. cbn [fst snd]. split; [reflexivity|].
    apply in_or_app. right.
    apply in_or_app. right.
    apply in_or_app. right. left. reflexivity.
Qed.

Lemma process_question_reports_failure_witness :
  ss_get RESPONSE
    (session_state
       (snd (process_question
               {| OPENAI_API_KEY := Some (u "sk-test");
                  text_area_value := ajax_question;
                  form_submitted := true;
                  db_path := u "data";
                  app_new_embeddings := inr Embeddings;
                  load_local := fun _ _ => inl store_down;
                  chat_model := mock_chat |}
               ajax_question fresh_state)))
  = Some (VStr SORRY).
Proof.
  apply (process_question_reports_failure _ ajax_question fresh_state
           store_down).
  right. exists Embeddings. split; [reflexivity|]. left. reflexivity.
Defined.

(** X22.  When the embedding client, the index and the pipeline all
    succeed, [process_question] stores the answer of the pipeline as the
    response and shows no error: the run adds the two setup calls and the
    calls of the pipeline, nothing else. *)
Theorem process_question_stores_answer (env : Browser) (question : str)
    (st : AppState) (emb : OpenAIEmbeddings) (db : FAISS) (answer : str)
    (calls : list event) :
  app_new_embeddings env = inr emb ->
  load_local env (db_path env) emb = inr db ->
  get_football_answer db (chat_model env) question None []
  = (inr answer, calls) ->
  ss_get RESPONSE (session_state (snd (process_question env question st)))
  = Some (VStr answer) /\
  events (snd (process_question env question st))
  = events st ++ [AppNewEmbeddings; AppLoadLocal (db_path env)]
    ++ map AppPipeline calls.
Proof.
  intros Hemb Hdb Hrun. rewrite process_question_run.
  cbn [snd session_state events].
  rewrite ss_get_set_other by (apply not_eq_sym, response_not_is_loading).
  rewrite ss_get_set_same. unfold question_outcome.
  rewrite Hemb, Hdb, Hrun. split; reflexivity.
Qed.

Lemma process_question_stores_answer_witness :
  ss_get RESPONSE
    (session_state
       (snd (process_question (test_browser ajax_question true)
               ajax_question fresh_state)))
  = Some (VStr ajax_reply).
Proof.
  apply (process_question_stores_answer (test_browser ajax_question true)
           ajax_question fresh_state Embeddings mock_faiss ajax_reply
           [SimilaritySearch ajax_question 4;
            Invoke (rendered (_format_context [ajax_passage]) ajax_question)]);
    reflexivity.
Defined.

(** X23.  [process_question] writes the two names ["response"] and
    ["is_loading"] only: every other name of the session state keeps its
    value, or stays absent. *)
Theorem process_question_frame (env : Browser) (question : str)
    (st : AppState) (name : str) :
  name <> RESPONSE -> name <> IS_LOADING ->
  ss_get name (session_state (snd (process_question env question st)))
  = ss_get name (session_state st).
Proof.
  intros Hr Hl. rewrite process_question_run. cbn [snd session_state].
  rewrite !ss_get_set_other by (apply not_eq_sym; assumption).
  reflexivity.
Qed.

Lemma process_question_frame_witness :
  ss_get QUESTION_INPUT
    (session_state
       (snd (process_question (test_browser ajax_question true) ajax_question
               (mkAppState [(QUESTION_INPUT, VStr ajax_question)] []))))
  = Some (VStr ajax_question).
Proof.
  rewrite (process_question_frame (test_browser ajax_question true)
             ajax_question _ QUESTION_INPUT); [reflexivity| |]; discriminate.
Defined.

Lemma initialize_run (st : AppState) :
  initialize_session_state st
  = (inr tt, {| session_state := init_ss (session_state st);
                events := events st |}).
Proof.
  destruct st as [ss evs].
  unfold initialize_session_state, init_ss, abind, has_attr, set_attr, aret.
  cbn [session_state events].
  destruct (ss_get RESPONSE ss) eqn:Er; cbn [negb session_state events].
  - destruct (ss_get IS_LOADING ss); reflexivity.
  - destruct (ss_get IS_LOADING (ss_set RESPONSE (VStr []) ss)); reflexivity.
Qed.

Lemma init_ss_response (ss : SessionState) :
  ss_get RESPONSE (init_ss ss)
  = Some match ss_get RESPONSE ss with Some v => v | None => VStr [] end.
Proof.
  unfold init_ss.
  destruct (ss_get RESPONSE ss) as [v|] eqn:Er.
  - destruct (ss_get IS_LOADING ss); [exact Er|].
    rewrite ss_get_set_other by (apply not_eq_sym, response_not_is_loading).
    exact Er.
  - destruct (ss_get IS_LOADING (ss_set RESPONSE (VStr []) ss)).
    + apply ss_get_set_same.
    + rewrite ss_get_set_other
        by (apply not_eq_sym, response_not_is_loading).
      apply ss_get_set_same.
Qed.

Lemma init_ss_is_loading (ss : SessionState) :
  ss_get IS_LOADING (init_ss ss)
  = Some match ss_get IS_LOADING ss with Some v => v | None => VBool false end.
Proof.
  unfold init_ss.
  destruct (ss_get RESPONSE ss) as [v|] eqn:Er.
  - destruct (ss_get IS_LOADING ss) as [b|] eqn:El; [exact El|].
    apply ss_get_set_same.
  - rewrite (ss_get_set_other RESPONSE IS_LOADING)
      by apply response_not_is_loading.
    destruct (ss_get IS_LOADING ss) as [b|] eqn:El.
    + rewrite (ss_get_set_other RESPONSE IS_LOADING)
        by apply response_not_is_loading.
      exact El.
    + apply ss_get_set_same.
Qed.

Lemma init_ss_other (ss : SessionState) (name : str) :
  name <> RESPONSE -> name <> IS_LOADING ->
  ss_get name (init_ss ss) = ss_get name ss.
Proof.
  intros Hr Hl. unfold init_ss.
  destruct (ss_get RESPONSE ss);
    [destruct (ss_get IS_LOADING ss)
    |destruct (ss_get IS_LOADING (ss_set RESPONSE (VStr []) ss))];
    rewrite ?ss_get_set_other by (apply not_eq_sym; assumption);
    reflexivity.
Qed.

Lemma init_ss_idem (ss : SessionState) : init_ss (init_ss ss) = init_ss ss.
Proof.
  unfold init_ss at 1.
  rewrite init_ss_response, init_ss_is_loading. reflexivity.
Qed.

(** X24.  [initialize_session_state] issues no command and raises
    nothing; afterwards ["response"] and ["is_loading"] are both there,
    with the value they had, or [""] and [False] when they were missing;
    every other name is untouched, and a second call changes nothing. *)
Theorem initialize_session_state_keeps (st : AppState) :
  exists st',
    initialize_session_state st = (inr tt, st') /\
    events st' = events st /\
    ss_get RESPONSE (session_state st')
    = Some match ss_get RESPONSE (session_state st) with
           | Some v => v
           | None => VStr []
           end /\
    ss_get IS_LOADING (session_state st')
    = Some match ss_get IS_LOADING (session_state st) with
           | Some v => v
           | None => VBool false
           end /\
    (forall name, name <> RESPONSE -> name <> IS_LOADING ->
       ss_get name (session_state st') = ss_get name (session_state st)) /\
    initialize_session_state st' = (inr tt, st').
Proof.
  rewrite initialize_run. eexists. split; [reflexivity|].
  cbn [session_state events]. split; [reflexivity|].
  split; [apply init_ss_response|].
  split; [apply init_ss_is_loading|].
  split; [intros name; apply init_ss_other|].
  rewrite initialize_run. cbn [session_state events].
  rewrite init_ss_idem. reflexivity.
Qed.

Lemma initialize_session_state_keeps_witness :
  exists st',
    initialize_session_state (mkAppState [(RESPONSE, VStr ajax_reply)] [])
    = (inr tt, st') /\
    ss_get RESPONSE (session_state st') = Some (VStr ajax_reply) /\
    ss_get IS_LOADING (session_state st') = Some (VBool false) /\
    ss_get QUESTION_INPUT (session_state st') = None.
Proof.
  destruct (initialize_session_state_keeps
              (mkAppState [(RESPONSE, VStr ajax_reply)] []))
    as (st' & H1 & _ & H3 & H4 & H5 & _).
  exists st'. split; [exact H1|]. split; [exact H3|]. split; [exact H4|].
  rewrite (H5 QUESTION_INPUT); [reflexivity| |]; discriminate.
Defined.

Lemma display_question_form_run (env : Browser) (st : AppState) :
  display_question_form env st
  = let form :=
      [StMarkdown CARD_OPEN; StMarkdown CARD_HEADER;
       StMarkdown CARD_CONTENT_OPEN; StForm QUESTION_FORM;
       StTextArea VRAAG [] PLACEHOLDER 100 QUESTION_INPUT;
       StColumns [1%Z; 1%Z; 1%Z]; StFormSubmitButton VRAAG_STELLEN] in
    if form_submitted env && py_truthy (py_strip (text_area_value env))
    then
      (inr (Some (py_strip (text_area_value env))),
       {| session_state :=
            ss_set RESPONSE (VStr [])
              (ss_set IS_LOADING (VBool true) (session_state st));
          events := events st ++ form |})
    else
      (inr None,
       {| session_state := session_state st;
          events := events st ++ form
                    ++ [StMarkdown DIV_CLOSE; StMarkdown DIV_CLOSE] |}).
Proof.
  unfold display_question_form, abind, st_do, set_attr, aret.
  cbn [session_state events].
  destruct (form_submitted env && py_truthy (py_strip (text_area_value env)));
    cbn [session_state events]; rewrite <- !app_assoc; reflexivity.
Qed.

(** X25.  The question form hands on a question only when the form was
    submitted and the typed text is not blank: then it returns the trimmed
    text, which is not empty and has no leading or trailing white space,
    sets [is_loading] and clears the response; otherwise it returns
    [None] and leaves the session state as it was. *)
Theorem display_question_form_returns (env : Browser) (st : AppState) :
  (form_submitted env = true ->
   py_strip (text_area_value env) <> [] ->
   fst (display_question_form env st)
   = inr (Some (py_strip (text_area_value env))) /\
   no_lead_ws (py_strip (text_area_value env)) = true /\
   no_trail_ws (py_strip (text_area_value env)) = true /\
   ss_get IS_LOADING (session_state (snd (display_question_form env st)))
   = Some (VBool true) /\
   ss_get RESPONSE (session_state (snd (display_question_form env st)))
   = Some (VStr [])) /\
  (form_submitted env = false \/ py_strip (text_area_value env) = [] ->
   fst (display_question_form env st) = inr None /\
   session_state (snd (display_question_form env st)) = session_state st).
Proof.
  rewrite display_question_form_run. cbn zeta. split.
  - intros Hs Hq. rewrite Hs.
    destruct (py_strip (text_area_value env)) as [|c r] eqn:E;
      [contradiction|].
    cbn [andb py_truthy fst snd session_state]. rewrite <- E.
    repeat split.
    + apply strip_no_lead.
    + apply strip_no_trail.
    + rewrite ss_get_set_other by apply response_not_is_loading.
      apply ss_get_set_same.
    + apply ss_get_set_same.
  - intros [Hs|Hq].
    + rewrite Hs. split; reflexivity.
    + rewrite Hq, andb_false_r. split; reflexivity.
Qed.

Lemma display_question_form_returns_witness :
  fst (display_question_form (test_browser (u "  How does Ajax play? ") true)
         fresh_state)
  = inr (Some ajax_question) /\
  fst (display_question_form (test_browser (u "   ") true) fresh_state)
  = inr None.
Proof.
  split.
  - apply (proj1 (display_question_form_returns
                    (test_browser (u "  How does Ajax play? ") true)
                    fresh_state)); [reflexivity|discriminate].
  - apply (proj2 (display_question_form_returns
                    (test_browser (u "   ") true) fresh_state)).
    right. reflexivity.
Defined.

Lemma display_response_run (st : AppState) (v : pyval) :
  ss_get RESPONSE (session_state st) = Some v ->
  display_response st
  = (inr tt,
     {| session_state := session_state st;
        events := events st
                  ++ if pyval_truthy v
                     then [StMarkdown (RESPONSE_CARD_OPEN ++ pyval_str v
                                       ++ RESPONSE_CARD_CLOSE)]
                     else [] |}).
Proof.
  intros H. destruct st as [ss evs]. cbn [session_state events] in *.
  unfold display_response, abind, get_attr, st_do, aret.
  cbn [session_state events]. rewrite H.
  destruct (pyval_truthy v); [reflexivity|].
  rewrite app_nil_r. reflexivity.
Qed.

Lemma main_run (env : Browser) (st : AppState) :
  main env st
  = if negb (has_api_key env) then
      (inl StopException,
       {| session_state := session_state st;
          events := events st ++ [StError API_KEY_NOT_FOUND] |})
    else
      let ss0 := init_ss (session_state st) in
      let q := py_strip (text_area_value env) in
      if form_submitted env && py_truthy q then
        (inl RerunException,
         {| session_state :=
              ss_set IS_LOADING (VBool false)
                (ss_set RESPONSE (VStr (fst (question_outcome env q)))
                   (ss_set RESPONSE (VStr [])
                      (ss_set IS_LOADING (VBool true) ss0)));
            events := events st ++ opening_events
                      ++ [StMarkdown LOADING_HTML]
                      ++ snd (question_outcome env q) |})
      else
        let is_loading :=
          match ss_get IS_LOADING (session_state st) with
          | Some v => v
          | None => VBool false
          end in
        let response :=
          match ss_get RESPONSE (session_state st) with
          | Some v => v
          | None => VStr []
          end in
        (inr tt,
         {| session_state := ss0;
            events := events st ++ opening_events
                      ++ [StMarkdown DIV_CLOSE; StMarkdown DIV_CLOSE]
                      ++ (if pyval_truthy is_loading
                          then [StMarkdown LOADING_HTML] else [])
                      ++ (if pyval_truthy response
                          then [StMarkdown (RESPONSE_CARD_OPEN
                                            ++ pyval_str response
                                            ++ RESPONSE_CARD_CLOSE)]
                          else [])
                      ++ [StMarkdown FOOTER_HTML] |}).
Proof.
  unfold main. unfold abind at 1.
  unfold validate_api_key. fold (has_api_key env).
  destruct (has_api_key env); cbn [negb].
  2:{ unfold abind, st_do, st_stop. reflexivity. }
  unfold aret at 1. cbn iota.
  unfold abind at 1, configure_page, st_do at 1. cbn iota.
  unfold abind at 1, load_css, st_do at 1. cbn [session_state events].
  unfold abind at 1. rewrite initialize_run. cbn [session_state events].
  unfold abind at 1, display_header, st_do at 1. cbn [session_state events].
  unfold abind at 1. rewrite display_question_form_run.
  cbn zeta. cbn [session_state events].
  destruct (form_submitted env && py_truthy (py_strip (text_area_value env)))
    eqn:Eq.
  - apply andb_prop in Eq. destruct Eq as [_ Eq].
    unfold abind at 1, get_attr. cbn [session_state events].
    rewrite ss_get_set_other by apply response_not_is_loading.
    rewrite ss_get_set_same. cbn [pyval_truthy].
    unfold abind at 1, display_loading_animation, st_do at 1.
    cbn [session_state events].
    unfold abind at 1. rewrite Eq, process_question_run.
    cbn [session_state events fst snd].
    unfold opening_events. rewrite <- !app_assoc. reflexivity.
  - unfold abind at 1, get_attr. cbn [session_state events].
    rewrite init_ss_is_loading.
    set (is_loading := match ss_get IS_LOADING (session_state st) with
                       | Some v => v
                       | None => VBool false
                       end).
    assert (Hresp := init_ss_response (session_state st)).
    set (response := match ss_get RESPONSE (session_state st) with
                     | Some v => v
                     | None => VStr []
                     end) in *.
    destruct (pyval_truthy is_loading);
      unfold abind, display_loading_animation, display_footer, st_do, aret;
      cbn [session_state events];
      erewrite display_response_run by (cbn [session_state]; exact Hresp);
      cbn [session_state events];
      unfold opening_events;
      destruct (pyval_truthy response);
      rewrite <- ?app_assoc; cbn [app]; rewrite <- ?app_assoc;
      reflexivity.
Qed.

(** X26.  Without an API key in the environment (none, or an empty one)
    [main] shows the error about the key and stops: it issues no other
    command, makes no call and leaves the session state as it was. *)
Theorem main_stops_without_key (env : Browser) (st : AppState) :
  OPENAI_API_KEY env = None \/ OPENAI_API_KEY env = Some [] ->
  main env st
  = (inl StopException,
     {| session_state := session_state st;
        events := events st ++ [StError API_KEY_NOT_FOUND] |}).
Proof.
  intros H. rewrite main_run.
  assert (Hk : has_api_key env = false).
  { unfold has_api_key. destruct H as [-> | ->]; reflexivity. }
  rewrite Hk. reflexivity.
Qed.

Lemma main_stops_without_key_witness :
  main {| OPENAI_API_KEY := None;
          text_area_value := ajax_question;
          form_submitted := true;
          db_path := u "data";
          app_new_embeddings := inr Embeddings;
          load_local := fun _ _ => inr mock_faiss;
          chat_model := mock_chat |} fresh_state
  = (inl StopException, mkAppState [] [StError API_KEY_NOT_FOUND]).
Proof.
  apply (main_stops_without_key _ fresh_state). left. reflexivity.
Defined.

(** X27.  With an API key, when the form is submitted with a text that
    is not blank, [main] shows the page up to the submit button and the
    loading animation, processes the trimmed text as the question and ends
    with the rerun signal: the response is stored, with [is_loading] set
    to [False], and response and footer are left to the next run. *)
Theorem main_processes_submitted_question (env : Browser) (st : AppState) :
  has_api_key env = true ->
  form_submitted env = true ->
  py_strip (text_area_value env) <> [] ->
  let q := py_strip (text_area_value env) in
  fst (main env st) = inl RerunException /\
  events (snd (main env st))
  = events st ++ opening_events ++ [StMarkdown LOADING_HTML]
    ++ snd (question_outcome env q) /\
  ss_get IS_LOADING (session_state (snd (main env st))) = Some (VBool false) /\
  ss_get RESPONSE (session_state (snd (main env st)))
  = Some (VStr (fst (question_outcome env q))).
Proof.
  intros Hk Hs Hq q. rewrite main_run, Hk, Hs. cbn [negb andb]. cbn zeta.
  fold q. destruct q as [|c r] eqn:E; [contradiction|].
  cbn [py_truthy fst snd session_state events].
  repeat split.
  - apply ss_get_set_same.
  - rewrite ss_get_set_other by (apply not_eq_sym, response_not_is_loading).
    apply ss_get_set_same.
Qed.

Lemma main_processes_submitted_question_witness :
  fst (main (test_browser (u "  How does Ajax play? ") true) fresh_state)
  = inl RerunException /\
  ss_get RESPONSE
    (session_state
       (snd (main (test_browser (u "  How does Ajax play? ") true)
               fresh_state)))
  = Some (VStr ajax_reply).
Proof.
  destruct (main_processes_submitted_question
              (test_browser (u "  How does Ajax play? ") true) fresh_state
              eq_refl eq_refl)
    as (H1 & _ & _ & H2); [discriminate|].
  split; [exact H1|exact H2].
Defined.

Lemma external_calls_app (a b : list app_event) :
  external_calls (a ++ b) = external_calls a ++ external_calls b.
Proof. apply filter_app. Qed.

(** X28.  With an API key, when the form was not submitted or the typed
    text is blank, [main] runs to its end without any external call: it
    shows the page, the loading animation when [is_loading] holds, the
    stored response, inserted as it is, when it is not empty, and the
    footer; the session state is the initialised one. *)
Theorem main_idle_run (env : Browser) (st : AppState) :
  has_api_key env = true ->
  form_submitted env = false \/ py_strip (text_area_value env) = [] ->
  let is_loading :=
    match ss_get IS_LOADING (session_state st) with
    | Some v => v
    | None => VBool false
    end in
  let response :=
    match ss_get RESPONSE (session_state st) with
    | Some v => v
    | None => VStr []
    end in
  fst (main env st) = inr tt /\
  events (snd (main env st))
  = events st ++ opening_events
    ++ [StMarkdown DIV_CLOSE; StMarkdown DIV_CLOSE]
    ++ (if pyval_truthy is_loading then [StMarkdown LOADING_HTML] else [])
    ++ (if pyval_truthy response
        then [StMarkdown (RESPONSE_CARD_OPEN ++ pyval_str response
                          ++ RESPONSE_CARD_CLOSE)]
        else [])
    ++ [StMarkdown FOOTER_HTML] /\
  external_calls (events (snd (main env st))) = external_calls (events st) /\
  ss_get IS_LOADING (session_state (snd (main env st))) = Some is_loading /\
  ss_get RESPONSE (session_state (snd (main env st))) = Some response.
Proof.
  intros Hk Hidle is_loading response. rewrite main_run, Hk. cbn [negb].
  cbn zeta.
  assert (Hc : form_submitted env
               && py_truthy (py_strip (text_area_value env)) = false).
  { destruct Hidle as [-> | ->]; [reflexivity|apply andb_false_r]. }
  rewrite Hc. fold is_loading response.
  cbn [fst snd session_state events].
  split; [reflexivity|]. split; [reflexivity|].
  split; [|split; [apply init_ss_is_loading|apply init_ss_response]].
  rewrite !external_calls_app.
  destruct (pyval_truthy is_loading), (pyval_truthy response);
    cbn [external_calls filter opening_events app];
    rewrite ?app_nil_r; reflexivity.
Qed.

Lemma main_idle_run_witness :
  fst (main (test_browser [] false)
         (mkAppState [(RESPONSE, VStr ajax_reply)] []))
  = inr tt /\
  external_calls
    (events (snd (main (test_browser [] false)
                    (mkAppState [(RESPONSE, VStr ajax_reply)] []))))
  = [].
Proof.
  destruct (main_idle_run (test_browser [] false)
              (mkAppState [(RESPONSE, VStr ajax_reply)] [])
              eq_refl (or_introl eq_refl))
    as (H1 & _ & H3 & _).
  split; [exact H1|exact H3].
Defined.
